(** * A phone book manager: shallow embedding and verified properties

    The development embeds [contact.py] and [phonebook.py] in Rocq.

    - Text.  A Python [str] is modelled as a [string] whose characters are the
      code points below 256.  On that range [str.lower], [str.isspace] and the
      regular-expression class [\d] are the functions defined below.
    - Library code.  [re.fullmatch], [datetime.strptime], [sorted], the text
      file layer and the [csv] reader and writer (dialect [excel]) are
      modelled by executable definitions written after their documented
      behaviour; the [csv] module's field size limit and text decoding errors
      are outside the model.
    - Effects.  The methods of [PhoneBook] run in a state and exception monad
      over the object, the files, the clock and the printed lines.  Calls to
      [logging] are left out. *)

From Stdlib Require Import String Ascii List Bool Arith NArith Lia.
From Stdlib Require Import Sorting.Sorted Sorting.Permutation.
Import ListNotations.

Local Open Scope string_scope.
Local Open Scope list_scope.

Infix "+++" := String.append (right associativity, at level 60).

(** ** Characters and strings *)

Module Text.

Definition code (c : ascii) : nat := nat_of_ascii c.

Definition between (lo hi : nat) (c : ascii) : bool :=
  (lo <=? code c)%nat && (code c <=? hi)%nat.

(** [\d] and [str.isdigit] on code points below 256. *)
Definition is_digit (c : ascii) : bool := between 48 57 c.

(** [str.isspace] on code points below 256. *)
Definition is_space (c : ascii) : bool :=
  between 9 13 c || between 28 32 c
  || (code c =? 133)%nat || (code c =? 160)%nat.

(** Characters that [str.lower] maps 32 places up: A-Z and the Latin-1
    capitals, the multiplication sign (215) excepted. *)
Definition is_upper (c : ascii) : bool :=
  between 65 90 c || (between 192 222 c && negb (code c =? 215)%nat).

Definition lower_char (c : ascii) : ascii :=
  if is_upper c then ascii_of_nat (code c + 32) else c.

Fixpoint lower (s : string) : string :=
  match s with
  | EmptyString => EmptyString
  | String c s' => String (lower_char c) (lower s')
  end.

Fixpoint lstrip (s : string) : string :=
  match s with
  | EmptyString => EmptyString
  | String c s' => if is_space c then lstrip s' else s
  end.

Fixpoint rstrip (s : string) : string :=
  match s with
  | EmptyString => EmptyString
  | String c s' =>
      match rstrip s' with
      | EmptyString => if is_space c then EmptyString else String c EmptyString
      | r => String c r
      end
  end.

(** [s.strip()] *)
Definition strip (s : string) : string := lstrip (rstrip s).

(** [s.startswith(q)] *)
Fixpoint startswith (q s : string) : bool :=
  match q, s with
  | EmptyString, _ => true
  | String a q', String b s' => Ascii.eqb a b && startswith q' s'
  | String _ _, EmptyString => false
  end.

(** [q in s] for strings. *)
Fixpoint contains (q s : string) : bool :=
  startswith q s ||
  match s with
  | EmptyString => false
  | String _ s' => contains q s'
  end.

Definition is_empty (s : string) : bool :=
  match s with EmptyString => true | _ => false end.

(** [", ".join(l)] and the like. *)
Fixpoint join (sep : string) (l : list string) : string :=
  match l with
  | [] => EmptyString
  | [x] => x
  | x :: l' => x +++ sep +++ join sep l'
  end.

(** Truthiness of an optional string: [None] and the empty string are
    false. *)
Definition truthy (o : option string) : bool :=
  match o with
  | Some s => negb (is_empty s)
  | None => false
  end.

End Text.

(** ** Regular expressions: the fragment used by the program and by
    [strptime] *)

Module Re.

Inductive regex : Type :=
| Eps                             (* the empty pattern *)
| Lit (c : ascii)                 (* a literal character *)
| Digit                           (* \d *)
| Range (lo hi : ascii)           (* [lo-hi] *)
| Seq (r1 r2 : regex)
| Alt (r1 r2 : regex)             (* r1|r2, the left one tried first *)
| Group (name : string) (r : regex).  (* (?P<name>r) *)

Definition captures := list (string * string).

(** [r{n}] *)
Fixpoint rep (n : nat) (r : regex) : regex :=
  match n with
  | O => Eps
  | S n' => Seq r (rep n' r)
  end.

Definition in_class (r : regex) (c : ascii) : bool :=
  match r with
  | Lit a => Ascii.eqb c a
  | Digit => Text.is_digit c
  | Range lo hi => Text.between (Text.code lo) (Text.code hi) c
  | _ => false
  end.

(** The text of [s] consumed when [s'] is what is left of it. *)
Definition consumed (s s' : string) : string :=
  substring 0 (String.length s - String.length s') s.

(** Backtracking matcher in continuation-passing style: [k] receives the
    rest of the subject and the groups captured so far. *)
Fixpoint rmatch {A : Type} (r : regex) (s : string) (caps : captures)
  (k : string -> captures -> option A) : option A :=
  match r with
  | Eps => k s caps
  | Seq r1 r2 => rmatch r1 s caps (fun s' caps' => rmatch r2 s' caps' k)
  | Alt r1 r2 =>
      match rmatch r1 s caps k with
      | Some x => Some x
      | None => rmatch r2 s caps k
      end
  | Group name r' =>
      rmatch r' s caps (fun s' caps' => k s' ((name, consumed s s') :: caps'))
  | _ =>
      match s with
      | String c s' => if in_class r c then k s' caps else None
      | EmptyString => None
      end
  end.

(** [re.fullmatch(r, s)]: the captured groups, or [None]. *)
Definition fullmatch (r : regex) (s : string) : option captures :=
  rmatch r s [] (fun s' caps => if Text.is_empty s' then Some caps else None).

(** [re.match(r, s)]: the captured groups and the text left after the
    match. *)
Definition match_ (r : regex) (s : string) : option (captures * string) :=
  rmatch r s [] (fun s' caps => Some (caps, s')).

Fixpoint group (caps : captures) (name : string) : option string :=
  match caps with
  | [] => None
  | (n, v) :: caps' => if String.eqb n name then Some v else group caps' name
  end.

End Re.

(** ** contact.py and phonebook.py *)

(** [pattern = r"\(\d{3}\) \d{3}-\d{4}"] *)
Definition phone_pattern : Re.regex :=
  Re.Seq (Re.Lit "(")
    (Re.Seq (Re.rep 3 Re.Digit)
       (Re.Seq (Re.Lit ")")
          (Re.Seq (Re.Lit " ")
             (Re.Seq (Re.rep 3 Re.Digit)
                (Re.Seq (Re.Lit "-") (Re.rep 4 Re.Digit)))))).

(** [PhoneBook.validate_phone_number] *)
Definition validate_phone_number (phone_number : string) : bool :=
  match Re.fullmatch phone_pattern phone_number with
  | Some _ => true
  | None => false
  end.

(** *** Dates *)

Record date : Type := mkdate { year : N; month : N; day : N }.

Record datetime : Type := mkdatetime {
  dt_date : date;        (* [datetime.date()] *)
  hour : N; minute : N; second : N; microsecond : N
}.

(** [d1 <= d2] on dates. *)
Definition date_leb (d1 d2 : date) : bool :=
  ((year d1 <? year d2)
   || ((year d1 =? year d2)
       && ((month d1 <? month d2)
           || ((month d1 =? month d2) && (day d1 <=? day d2)))))%N.

Definition is_leap (y : N) : bool :=
  ((y mod 4 =? 0) && (negb (y mod 100 =? 0) || (y mod 400 =? 0)))%N.

Definition days_in_month (y m : N) : N :=
  (if m =? 2 then (if is_leap y then 29 else 28)
   else if (m =? 4) || (m =? 6) || (m =? 9) || (m =? 11) then 30
   else 31)%N.

(** The constructor [date(y, m, d)]; [None] models [ValueError]. *)
Definition make_date (y m d : N) : option date :=
  if ((1 <=? y) && (y <=? 9999) && (1 <=? m) && (m <=? 12)
      && (1 <=? d) && (d <=? days_in_month y m))%N
  then Some (mkdate y m d) else None.

Fixpoint digits_value (acc : N) (s : string) : option N :=
  match s with
  | EmptyString => Some acc
  | String c s' =>
      if Text.is_digit c
      then digits_value (acc * 10 + N.of_nat (Text.code c - 48)) s'
      else None
  end.

(** [int(s)] on unsigned decimal text, surrounding whitespace ignored;
    [None] models [ValueError]. *)
Definition int (s : string) : option N :=
  match Text.strip s with
  | EmptyString => None
  | t => digits_value 0 t
  end.

(** The regular expression [strptime] builds for the format [%Y-%m-%d]:
    [%Y] is [\d\d\d\d], [%m] is [1[0-2]|0[1-9]|[1-9]] and [%d] is
    [3[01]|[12]\d|0[1-9]|[1-9]| [1-9]]. *)
Definition date_format_regex : Re.regex :=
  let Y := Re.Group "Y" (Re.rep 4 Re.Digit) in
  let m :=
    Re.Group "m"
      (Re.Alt (Re.Seq (Re.Lit "1") (Re.Range "0" "2"))
         (Re.Alt (Re.Seq (Re.Lit "0") (Re.Range "1" "9"))
            (Re.Range "1" "9"))) in
  let d :=
    Re.Group "d"
      (Re.Alt (Re.Seq (Re.Lit "3") (Re.Range "0" "1"))
         (Re.Alt (Re.Seq (Re.Range "1" "2") Re.Digit)
            (Re.Alt (Re.Seq (Re.Lit "0") (Re.Range "1" "9"))
               (Re.Alt (Re.Range "1" "9")
                  (Re.Seq (Re.Lit " ") (Re.Range "1" "9")))))) in
  Re.Seq Y (Re.Seq (Re.Lit "-") (Re.Seq m (Re.Seq (Re.Lit "-") d))).

Definition bind_option {A B : Type} (o : option A) (f : A -> option B)
  : option B :=
  match o with
  | Some a => f a
  | None => None
  end.

(** [datetime.strptime(s, "%Y-%m-%d").date()]; [None] models [ValueError]:
    no match, unconverted data left, or no such calendar day. *)
Definition strptime_date (s : string) : option date :=
  match Re.match_ date_format_regex s with
  | None => None
  | Some (caps, rest) =>
      if Text.is_empty rest then
        bind_option (bind_option (Re.group caps "Y") int) (fun y =>
        bind_option (bind_option (Re.group caps "m") int) (fun m =>
        bind_option (bind_option (Re.group caps "d") int) (fun d =>
        make_date y m d)))
      else None
  end.

(** *** Text files *)

Module File.

Definition CR : ascii := "013"%char.
Definition LF : ascii := "010"%char.

Definition is_cr (c : ascii) : bool := Ascii.eqb c CR.
Definition is_lf (c : ascii) : bool := Ascii.eqb c LF.

(** The lines a text file object yields when iterated, line ends kept.
    A line ends at LF, at CR LF or at a lone CR (universal newlines).
    With [translate] (the default [newline=None]) every line end is given
    as LF; without it ([newline='']) line ends are given as they are.
    [cur] is the part of the current line already read. *)
Fixpoint splitlines (translate : bool) (cur : string) (text : string)
  : list string :=
  match text with
  | EmptyString => if Text.is_empty cur then [] else [cur]
  | String c rest =>
      if is_lf c then
        (cur +++ String LF EmptyString) :: splitlines translate EmptyString rest
      else if is_cr c then
        match rest with
        | String c' rest' =>
            if is_lf c' then
              (cur +++ (if translate then String LF EmptyString
                        else String CR (String LF EmptyString)))
              :: splitlines translate EmptyString rest'
            else
              (cur +++ String (if translate then LF else CR) EmptyString)
              :: splitlines translate EmptyString rest
        | EmptyString =>
            (cur +++ String (if translate then LF else CR) EmptyString)
            :: splitlines translate EmptyString rest
        end
      else splitlines translate (cur +++ String c EmptyString) rest
  end.

Definition lines (translate : bool) (text : string) : list string :=
  splitlines translate EmptyString text.

End File.

(** *** The csv module, dialect [excel]: delimiter [,], quote character
    [034], doubled quotes, no escape character, minimal quoting, line
    terminator CR LF, not strict *)

Module Csv.

Definition delimiter : ascii := ","%char.
Definition quotechar : ascii := "034"%char.
Definition lineterminator : string :=
  String File.CR (String File.LF EmptyString).

Definition is_newline (c : ascii) : bool := File.is_lf c || File.is_cr c.

(** **** Reader *)

(** The parser states the dialect can reach (the three states that follow
    an escape character are left out: the dialect has none). *)
Inductive parser_state : Type :=
| START_RECORD | START_FIELD | IN_FIELD | IN_QUOTED_FIELD
| QUOTE_IN_QUOTED_FIELD | EAT_CRNL.

Definition state_eqb (a b : parser_state) : bool :=
  match a, b with
  | START_RECORD, START_RECORD | START_FIELD, START_FIELD
  | IN_FIELD, IN_FIELD | IN_QUOTED_FIELD, IN_QUOTED_FIELD
  | QUOTE_IN_QUOTED_FIELD, QUOTE_IN_QUOTED_FIELD | EAT_CRNL, EAT_CRNL => true
  | _, _ => false
  end.

Record parser : Type := mkparser {
  state : parser_state;
  field : string;            (* the field being read *)
  fields : list string       (* the fields of the record read so far *)
}.

Definition parse_reset : parser := mkparser START_RECORD EmptyString [].

Definition set_state (p : parser) (s : parser_state) : parser :=
  mkparser s (field p) (fields p).

Definition parse_save_field (p : parser) : parser :=
  mkparser (state p) EmptyString (fields p ++ [field p]).

Definition parse_add_char (p : parser) (c : ascii) : parser :=
  mkparser (state p) (field p +++ String c EmptyString) (fields p).

(** One step of the parser; [None] as the character is the end of a line,
    [None] as the result is [csv.Error]. *)
Definition parse_process_char (p : parser) (c : option ascii)
  : option parser :=
  let start_field (p : parser) : option parser :=
    match c with
    | None => Some (set_state (parse_save_field p) START_RECORD)
    | Some ch =>
        if is_newline ch then Some (set_state (parse_save_field p) EAT_CRNL)
        else if Ascii.eqb ch quotechar then Some (set_state p IN_QUOTED_FIELD)
        else if Ascii.eqb ch delimiter then Some (parse_save_field p)
        else Some (set_state (parse_add_char p ch) IN_FIELD)
    end in
  match state p with
  | START_RECORD =>
      match c with
      | None => Some p
      | Some ch =>
          if is_newline ch then Some (set_state p EAT_CRNL)
          else start_field (set_state p START_FIELD)
      end
  | START_FIELD => start_field p
  | IN_FIELD =>
      match c with
      | None => Some (set_state (parse_save_field p) START_RECORD)
      | Some ch =>
          if is_newline ch then Some (set_state (parse_save_field p) EAT_CRNL)
          else if Ascii.eqb ch delimiter
          then Some (set_state (parse_save_field p) START_FIELD)
          else Some (parse_add_char p ch)
      end
  | IN_QUOTED_FIELD =>
      match c with
      | None => Some p
      | Some ch =>
          if Ascii.eqb ch quotechar
          then Some (set_state p QUOTE_IN_QUOTED_FIELD)
          else Some (parse_add_char p ch)
      end
  | QUOTE_IN_QUOTED_FIELD =>
      match c with
      | None => Some (set_state (parse_save_field p) START_RECORD)
      | Some ch =>
          if Ascii.eqb ch quotechar
          then Some (set_state (parse_add_char p ch) IN_QUOTED_FIELD)
          else if Ascii.eqb ch delimiter
          then Some (set_state (parse_save_field p) START_FIELD)
          else if is_newline ch
          then Some (set_state (parse_save_field p) EAT_CRNL)
          else Some (set_state (parse_add_char p ch) IN_FIELD)
      end
  | EAT_CRNL =>
      match c with
      | None => Some (set_state p START_RECORD)
      | Some ch => if is_newline ch then Some p else None
      end
  end.

(** The characters of a line, one after the other. *)
Fixpoint feed (p : parser) (line : string) : option parser :=
  match line with
  | EmptyString => Some p
  | String c rest =>
      match parse_process_char p (Some c) with
      | Some p' => feed p' rest
      | None => None
      end
  end.

(** A line and then its end. *)
Definition feed_line (p : parser) (line : string) : option parser :=
  match feed p line with
  | Some p' => parse_process_char p' None
  | None => None
  end.

(** What iterating a reader yields: the records in order, and whether the
    iteration ended by [csv.Error] instead of by exhaustion. *)
Record rows : Type := mkrows {
  records : list (list string);
  failed : bool
}.

Definition cons_record (r : list string) (rs : rows) : rows :=
  mkrows (r :: records rs) (failed rs).

(** The records of the lines [lines], the parser being [p] at the start of
    the first of them.  A record is complete when a line leaves the parser
    in [START_RECORD]; when the lines end inside a record, what was read of
    it is the last record. *)
Fixpoint read (p : parser) (lines : list string) : rows :=
  match lines with
  | [] =>
      if negb (Text.is_empty (field p)) || state_eqb (state p) IN_QUOTED_FIELD
      then mkrows [fields (parse_save_field p)] false
      else mkrows [] false
  | line :: lines' =>
      match feed_line p line with
      | None => mkrows [] true
      | Some p' =>
          if state_eqb (state p') START_RECORD
          then cons_record (fields p') (read parse_reset lines')
          else read p' lines'
      end
  end.

(** [csv.reader(file)], iterated to the end. *)
Definition reader (lines : list string) : rows := read parse_reset lines.

(** **** Writer *)

Definition needs_quotes (c : ascii) : bool :=
  Ascii.eqb c delimiter || Ascii.eqb c quotechar || is_newline c.

(** The characters of a field as written, quote characters doubled. *)
Fixpoint join_append_data (f : string) : string :=
  match f with
  | EmptyString => EmptyString
  | String c f' =>
      if Ascii.eqb c quotechar
      then String c (String c (join_append_data f'))
      else String c (join_append_data f')
  end.

Fixpoint quoted (f : string) : bool :=
  match f with
  | EmptyString => false
  | String c f' => needs_quotes c || quoted f'
  end.

Definition join_append (f : string) : string :=
  if quoted f
  then String quotechar (join_append_data f +++ String quotechar EmptyString)
  else join_append_data f.

(** A cell given to [writerow]: [None] is written as the empty string. *)
Definition cell (o : option string) : string :=
  match o with
  | Some s => s
  | None => EmptyString
  end.

(** [writer.writerow(row)]: the text written.  A record of one empty field
    is written as a pair of quotes. *)
Definition writerow (row : list (option string)) : string :=
  let rec := Text.join (String delimiter EmptyString)
               (map (fun o => join_append (cell o)) row) in
  (if Text.is_empty rec && negb (length row =? 0)%nat
   then String quotechar (String quotechar EmptyString)
   else rec)
  +++ lineterminator.

End Csv.

(** *** Stable sorting *)

(** [sorted(l, key=key)]: the keys are strings compared with [<], and equal
    keys keep their order.  A stable sort has one possible result, so stable
    insertion stands for the library's algorithm. *)
Section Sorted.
Context {A : Type} (key : A -> string).

Fixpoint insert_sorted (x : A) (l : list A) : list A :=
  match l with
  | [] => [x]
  | y :: l' =>
      if String.ltb (key x) (key y) then x :: l
      else y :: insert_sorted x l'
  end.

Definition sorted (l : list A) : list A :=
  fold_left (fun acc x => insert_sorted x acc) l [].
End Sorted.

(** *** Contact *)

Record Contact : Type := mkContact {
  first_name : string;
  last_name : string;
  phone_number : string;
  email : option string;
  address : option string;
  created_at : datetime;
  updated_at : datetime
}.

(** [Contact.__str__] *)
Definition Contact_str (c : Contact) : string :=
  let or_na (o : option string) :=
    if Text.truthy o then Csv.cell o else "N/A" in
  first_name c +++ " " +++ last_name c +++ ": " +++ phone_number c
  +++ " | Email: " +++ or_na (email c)
  +++ " | Address: " +++ or_na (address c).

(** *** The state and exception monad *)

(** What the program prints, one constructor per [print] call (decorations
    of the text are dropped). *)
Inductive message : Type :=
| InvalidPhoneNumberFormat
| ContactDeleted (first last : string)
| ContactsNotFound (names : string)
| BatchDeleteCompleted (csv_file : string)
| FileNotFound (csv_file : string)
| InvalidPhoneNumbers
| Line (text : string)
| BatchImportCompleted (csv_file : string)
| FoundInDateRange (n : nat)
| NoContactsBetween (start_date end_date : date)
| InvalidDateFormat
| ContactUpdated (first last : string)
| NoContactWithName (first last : string)
| NoContactsFound
| StartingEmpty (filename : string).

Inductive exn : Type :=
| FileNotFoundError | StopIteration | ValueError | CsvError.

Definition exn_eqb (a b : exn) : bool :=
  match a, b with
  | FileNotFoundError, FileNotFoundError | StopIteration, StopIteration
  | ValueError, ValueError | CsvError, CsvError => true
  | _, _ => false
  end.

(** The world outside the objects: the files by path, the clock (the
    [n]-th reading of [datetime.now()] is [clock n]) and what was
    printed. *)
Record world : Type := mkworld {
  files : string -> option string;
  clock : nat -> datetime;
  ticks : nat;
  stdout : list message
}.

Inductive outcome (A : Type) : Type :=
| Return (a : A)
| Raise (e : exn).
Arguments Return {A} a.
Arguments Raise {A} e.

(** A computation on an object of type [T]. *)
Definition M (T A : Type) : Type := T -> world -> outcome A * T * world.

Definition ret {T A : Type} (a : A) : M T A := fun s w => (Return a, s, w).

Definition bind {T A B : Type} (m : M T A) (f : A -> M T B) : M T B :=
  fun s w =>
    match m s w with
    | (Return a, s', w') => f a s' w'
    | (Raise e, s', w') => (Raise e, s', w')
    end.

Notation "x <- m ;; k" := (bind m (fun x => k))
  (at level 61, m at next level, right associativity).
Notation "m ;; k" := (bind m (fun _ => k))
  (at level 61, right associativity).

Definition raise {T A : Type} (e : exn) : M T A := fun s w => (Raise e, s, w).

(** [try: body except e: handler] *)
Definition try_except {T A : Type} (body : M T A) (e : exn)
  (handler : M T A) : M T A :=
  fun s w =>
    match body s w with
    | (Raise e', s', w') =>
        if exn_eqb e' e then handler s' w' else (Raise e', s', w')
    | r => r
    end.

Definition get {T : Type} : M T T := fun s w => (Return s, s, w).
Definition put {T : Type} (s : T) : M T unit := fun _ w => (Return tt, s, w).

Definition print {T : Type} (m : message) : M T unit :=
  fun s w =>
    (Return tt, s, mkworld (files w) (clock w) (ticks w) (stdout w ++ [m])).

(** [datetime.now()] *)
Definition now {T : Type} : M T datetime :=
  fun s w =>
    (Return (clock w (ticks w)), s,
     mkworld (files w) (clock w) (S (ticks w)) (stdout w)).

(** [open(path)] for reading, and the whole text of the file. *)
Definition open_read {T : Type} (path : string) : M T string :=
  fun s w =>
    match files w path with
    | Some text => (Return text, s, w)
    | None => (Raise FileNotFoundError, s, w)
    end.

(** [open(path, 'w')], the text written, and the close. *)
Definition write_file {T : Type} (path text : string) : M T unit :=
  fun s w =>
    (Return tt, s,
     mkworld (fun p => if String.eqb p path then Some text else files w p)
       (clock w) (ticks w) (stdout w)).

Definition lift_option {T A : Type} (e : exn) (o : option A) : M T A :=
  match o with
  | Some a => ret a
  | None => raise e
  end.

(** [for x in l: body x] *)
Fixpoint for_each {T A : Type} (l : list A) (body : A -> M T unit)
  : M T unit :=
  match l with
  | [] => ret tt
  | x :: l' => body x ;; for_each l' body
  end.

(** A loop that also updates a local variable. *)
Fixpoint for_fold {T A B : Type} (l : list A) (acc : B)
  (body : A -> B -> M T B) : M T B :=
  match l with
  | [] => ret acc
  | x :: l' => acc' <- body x acc ;; for_fold l' acc' body
  end.

(** [for row in reader: body row], the reader being a [csv.reader]. *)
Definition for_rows {T B : Type} (reader : Csv.rows) (acc : B)
  (body : list string -> B -> M T B) : M T B :=
  acc' <- for_fold (Csv.records reader) acc body ;;
  if Csv.failed reader then raise CsvError else ret acc'.

(** [next(reader)]: the first record and the reader that yields the
    others. *)
Definition next {T : Type} (reader : Csv.rows)
  : M T (list string * Csv.rows) :=
  match Csv.records reader with
  | r :: rs => ret (r, Csv.mkrows rs (Csv.failed reader))
  | [] => raise (if Csv.failed reader then CsvError else StopIteration)
  end.

(** [Contact.__init__] *)
Definition Contact_init {T : Type} (first_name last_name phone_number : string)
  (email address : option string) : M T Contact :=
  created <- now ;;
  updated <- now ;;
  ret (mkContact first_name last_name phone_number email address
         created updated).

(** [Contact.update_contact]: the object is the contact. *)
Definition update_contact
  (new_first_name new_last_name new_phone_number new_email new_address
     : option string) : M Contact unit :=
  let pick (new : option string) (old : string) : string :=
    if Text.truthy new then Csv.cell new else old in
  let pick_option (new old : option string) : option string :=
    if Text.truthy new then new else old in
  self <- get ;;
  let self := mkContact (pick new_first_name (first_name self))
                (last_name self) (phone_number self) (email self)
                (address self) (created_at self) (updated_at self) in
  let self := mkContact (first_name self)
                (pick new_last_name (last_name self)) (phone_number self)
                (email self) (address self) (created_at self)
                (updated_at self) in
  let self := mkContact (first_name self) (last_name self)
                (pick new_phone_number (phone_number self)) (email self)
                (address self) (created_at self) (updated_at self) in
  let self := mkContact (first_name self) (last_name self)
                (phone_number self) (pick_option new_email (email self))
                (address self) (created_at self) (updated_at self) in
  let self := mkContact (first_name self) (last_name self)
                (phone_number self) (email self)
                (pick_option new_address (address self)) (created_at self)
                (updated_at self) in
  t <- now ;;
  put (mkContact (first_name self) (last_name self) (phone_number self)
         (email self) (address self) (created_at self) t).

(** *** PhoneBook *)

Record PhoneBook : Type := mkPhoneBook {
  contacts : list Contact;
  filename : string
}.

(** [PhoneBook.__init__]; [module_dir] is the directory of the module. *)
Definition PhoneBook_init (module_dir : string) : PhoneBook :=
  mkPhoneBook [] (module_dir +++ "/contacts.csv").

Definition get_contacts : M PhoneBook (list Contact) :=
  self <- get ;; ret (contacts self).

Definition set_contacts (l : list Contact) : M PhoneBook unit :=
  self <- get ;; put (mkPhoneBook l (filename self)).

(** [PhoneBook.sort_contacts] *)
Definition sort_contacts (key : string) : M PhoneBook unit :=
  l <- get_contacts ;;
  if String.eqb key "first_name" then
    set_contacts (sorted (fun contact => Text.lower (first_name contact)) l)
  else if String.eqb key "last_name" then
    set_contacts (sorted (fun contact => Text.lower (last_name contact)) l)
  else ret tt.

(** [PhoneBook.add_contact] *)
Definition add_contact (contact : Contact) : M PhoneBook unit :=
  if negb (validate_phone_number (phone_number contact)) then
    print InvalidPhoneNumberFormat
  else
    l <- get_contacts ;;
    set_contacts (l ++ [contact]) ;;
    sort_contacts "last_name".

(** The condition of the comprehension in [remove_contact_by_name]: the
    contact is kept. *)
Definition kept (first_name' last_name' : string) (contact : Contact) : bool :=
  negb (String.eqb (Text.lower (Text.strip (first_name contact)))
          (Text.lower first_name'))
  || negb (String.eqb (Text.lower (Text.strip (last_name contact)))
             (Text.lower last_name')).

(** [PhoneBook.remove_contact_by_name] *)
Definition remove_contact_by_name (first_name last_name : string)
  : M PhoneBook unit :=
  l <- get_contacts ;;
  let original_count := length l in
  let first_name := Text.strip first_name in
  let last_name := Text.strip last_name in
  set_contacts (filter (kept first_name last_name) l) ;;
  l' <- get_contacts ;;
  if (length l' <? original_count)%nat
  then print (ContactDeleted first_name last_name)
  else ret tt.

(** The body of the loop of [batch_delete]. *)
Definition delete_row (row : list string) (not_found_contacts : list string)
  : M PhoneBook (list string) :=
  if (2 <=? length row)%nat then
    let first_name := Text.strip (nth 0 row EmptyString) in
    let last_name := Text.strip (nth 1 row EmptyString) in
    l <- get_contacts ;;
    let original_count := length l in
    remove_contact_by_name first_name last_name ;;
    l' <- get_contacts ;;
    if (length l' =? original_count)%nat
    then ret (not_found_contacts ++ [first_name +++ " " +++ last_name])
    else ret not_found_contacts
  else ret not_found_contacts.

(** [PhoneBook.batch_delete] *)
Definition batch_delete (csv_file : string) : M PhoneBook unit :=
  try_except
    (text <- open_read csv_file ;;
     let reader := Csv.reader (File.lines false text) in
     header <- next reader ;;
     not_found_contacts <- for_rows (snd header) [] delete_row ;;
     match not_found_contacts with
     | _ :: _ => print (ContactsNotFound (Text.join ", " not_found_contacts))
     | [] => print (BatchDeleteCompleted csv_file)
     end)
    FileNotFoundError
    (print (FileNotFound csv_file)).

(** The body of the loop of [batch_import]. *)
Definition import_row (row : list string) (invalid_contacts : list string)
  : M PhoneBook (list string) :=
  if (3 <=? length row)%nat then
    let first_name := nth 0 row EmptyString in
    let last_name := nth 1 row EmptyString in
    let phone_number := nth 2 row EmptyString in
    let email := if (3 <? length row)%nat then nth_error row 3 else None in
    let address := if (4 <? length row)%nat then nth_error row 4 else None in
    contact <- Contact_init first_name last_name phone_number email address ;;
    if negb (validate_phone_number phone_number) then
      ret (invalid_contacts
           ++ [first_name +++ " " +++ last_name +++ ": " +++ phone_number])
    else
      add_contact contact ;; ret invalid_contacts
  else ret invalid_contacts.

(** What [batch_import] prints after the loop. *)
Definition import_report (csv_file : string) (invalid_contacts : list string)
  : M PhoneBook unit :=
  match invalid_contacts with
  | _ :: _ =>
      print InvalidPhoneNumbers ;;
      for_each invalid_contacts (fun contact => print (Line contact))
  | [] => print (BatchImportCompleted csv_file)
  end.

(** [PhoneBook.batch_import] *)
Definition batch_import (csv_file : string) : M PhoneBook unit :=
  try_except
    (text <- open_read csv_file ;;
     let reader := Csv.reader (File.lines false text) in
     invalid_contacts <- for_rows reader [] import_row ;;
     import_report csv_file invalid_contacts)
    FileNotFoundError
    (print (FileNotFound csv_file)).

(** The condition of the comprehension in [search_contact]. *)
Definition found (query : string) (contact : Contact) : bool :=
  Text.contains query (Text.lower (first_name contact))
  || Text.contains query (Text.lower (last_name contact))
  || Text.contains query (phone_number contact).

(** [PhoneBook.search_contact] *)
Definition search_contact (query : string) : M PhoneBook (list Contact) :=
  let query := Text.lower (Text.strip query) in
  l <- get_contacts ;;
  ret (filter (found query) l).

(** [start_date <= contact.created_at.date() <= end_date] *)
Definition in_range (start_date end_date : date) (contact : Contact) : bool :=
  date_leb start_date (dt_date (created_at contact))
  && date_leb (dt_date (created_at contact)) end_date.

(** [PhoneBook.filter_by_date] *)
Definition filter_by_date (start_date end_date : string)
  : M PhoneBook (list Contact) :=
  try_except
    (start_date <- lift_option ValueError (strptime_date start_date) ;;
     end_date <- lift_option ValueError (strptime_date end_date) ;;
     l <- get_contacts ;;
     let result := filter (in_range start_date end_date) l in
     match result with
     | _ :: _ =>
         print (FoundInDateRange (length result)) ;;
         for_each result (fun contact => print (Line (Contact_str contact)))
     | [] => print (NoContactsBetween start_date end_date)
     end ;;
     ret result)
    ValueError
    (print InvalidDateFormat ;; ret []).

(** The new values given to [update_contact_by_name]: the dictionary
    [new_contact_info], a key that is missing being [None]. *)
Record contact_info : Type := mkinfo {
  new_first_name : option string;
  new_last_name : option string;
  new_phone_number : option string;
  new_email : option string;
  new_address : option string
}.

(** A method of a contact, called on the contact [c] from a method of the
    phone book: its result and the contact as the call leaves it. *)
Definition on_contact {A : Type} (c : Contact) (m : M Contact A)
  : M PhoneBook (A * Contact) :=
  fun self w =>
    match m c w with
    | (Return a, c', w') => (Return (a, c'), self, w')
    | (Raise e, _, w') => (Raise e, self, w')
    end.

(** The loop of [update_contact_by_name] over the contacts; [before] are
    the contacts already passed.  The result tells whether one matched. *)
Fixpoint update_first (first_name' last_name' : string) (info : contact_info)
  (before l : list Contact) : M PhoneBook bool :=
  match l with
  | [] => ret false
  | contact :: l' =>
      if String.eqb (Text.lower (first_name contact)) (Text.lower first_name')
         && String.eqb (Text.lower (last_name contact)) (Text.lower last_name')
      then
        r <- on_contact contact
               (update_contact (new_first_name info) (new_last_name info)
                  (new_phone_number info) (new_email info)
                  (new_address info)) ;;
        set_contacts (before ++ snd r :: l') ;;
        print (ContactUpdated first_name' last_name') ;;
        ret true
      else update_first first_name' last_name' info (before ++ [contact]) l'
  end.

(** [PhoneBook.update_contact_by_name] *)
Definition update_contact_by_name (first_name last_name : string)
  (new_contact_info : contact_info) : M PhoneBook unit :=
  l <- get_contacts ;;
  updated <- update_first first_name last_name new_contact_info [] l ;;
  if updated : bool then ret tt
  else print (NoContactWithName first_name last_name).

(** [PhoneBook.display_contacts] *)
Definition display_contacts : M PhoneBook unit :=
  l <- get_contacts ;;
  match l with
  | [] => print NoContactsFound
  | _ :: _ => ret tt
  end ;;
  for_each l (fun contact => print (Line (Contact_str contact))).

(** The row [save_to_file] writes for a contact. *)
Definition contact_row (contact : Contact) : list (option string) :=
  [Some (first_name contact); Some (last_name contact);
   Some (phone_number contact); email contact; address contact].

(** [PhoneBook.save_to_file] *)
Definition save_to_file : M PhoneBook unit :=
  self <- get ;;
  write_file (filename self)
    (String.concat EmptyString
       (map (fun contact => Csv.writerow (contact_row contact))
          (contacts self))).

(** The body of the loop of [load_from_file]. *)
Definition load_row (row : list string) (_ : unit) : M PhoneBook unit :=
  if (3 <=? length row)%nat then
    contact <- Contact_init (nth 0 row EmptyString) (nth 1 row EmptyString)
                 (nth 2 row EmptyString)
                 (if (3 <? length row)%nat then nth_error row 3 else None)
                 (if (4 <? length row)%nat then nth_error row 4 else None) ;;
    add_contact contact
  else ret tt.

(** [PhoneBook.load_from_file] *)
Definition load_from_file : M PhoneBook unit :=
  self <- get ;;
  try_except
    (text <- open_read (filename self) ;;
     let reader := Csv.reader (File.lines true text) in
     for_rows reader tt load_row)
    FileNotFoundError
    (print (StartingEmpty (filename self))).

(** ** The properties of the specification, in its own words *)

(** One decimal digit. *)
Definition decimal_digit (c : ascii) : Prop :=
  In c ["0"; "1"; "2"; "3"; "4"; "5"; "6"; "7"; "8"; "9"]%char.

Fixpoint all_chars (P : ascii -> Prop) (s : string) : Prop :=
  match s with
  | EmptyString => True
  | String c s' => P c /\ all_chars P s'
  end.

(** [n] decimal digits. *)
Definition digits (n : nat) (s : string) : Prop :=
  String.length s = n /\ all_chars decimal_digit s.

(** The whole of [s] is [(DDD) DDD-DDDD]. *)
Definition phone_format (s : string) : Prop :=
  exists area exchange line : string,
    digits 3 area /\ digits 3 exchange /\ digits 4 line /\
    s = "(" +++ area +++ ") " +++ exchange +++ "-" +++ line.

(** Nondecreasing last names, case ignored. *)
Definition last_name_le (a b : Contact) : Prop :=
  String.leb (Text.lower (last_name a)) (Text.lower (last_name b)) = true.

(** [q] occurs in [s]. *)
Definition substring_of (q s : string) : Prop :=
  exists before after : string, s = before +++ q +++ after.

(** [q] occurs in [s], case ignored. *)
Definition ci_substring_of (q s : string) : Prop :=
  substring_of (Text.lower q) (Text.lower s).

(** The names of the contact are the given ones, case and surrounding
    whitespace ignored. *)
Definition same_name (first last : string) (c : Contact) : Prop :=
  Text.lower (Text.strip (first_name c)) = Text.lower (Text.strip first) /\
  Text.lower (Text.strip (last_name c)) = Text.lower (Text.strip last).

(** Calendar order of dates. *)
Definition date_le (d1 d2 : date) : Prop :=
  (year d1 < year d2 \/
   (year d1 = year d2 /\
    (month d1 < month d2 \/ (month d1 = month d2 /\ day d1 <= day d2))))%N.

(** The value of an attribute after an update: a value that is given and
    not empty replaces the old one. *)
Definition updated (new : option string) (old : string) : string :=
  match new with
  | Some (String c s) => String c s
  | _ => old
  end.

Definition updated_option (new old : option string) : option string :=
  match new with
  | Some (String c s) => new
  | _ => old
  end.

(** A text as it is read back from a file opened with universal
    newlines: CR LF and CR are read as LF. *)
Fixpoint universal_newlines (s : string) : string :=
  match s with
  | EmptyString => EmptyString
  | String c s' =>
      if File.is_cr c then
        match s' with
        | String c' s'' =>
            if File.is_lf c' then String File.LF (universal_newlines s'')
            else String File.LF (universal_newlines s')
        | EmptyString => String File.LF EmptyString
        end
      else String c (universal_newlines s')
  end.

(** The contact [c'] has the values of [c] as the persistence file gives
    them back: an absent value as the empty string, line ends as LF. *)
Definition read_back (c c' : Contact) : Prop :=
  first_name c' = universal_newlines (first_name c) /\
  last_name c' = universal_newlines (last_name c) /\
  phone_number c' = phone_number c /\
  email c' = Some (universal_newlines (Csv.cell (email c))) /\
  address c' = Some (universal_newlines (Csv.cell (address c))).

(** The same five values. *)
Definition same_values (c c' : Contact) : Prop :=
  first_name c' = first_name c /\ last_name c' = last_name c /\
  phone_number c' = phone_number c /\ email c' = email c /\
  address c' = address c.

(** ** Sample data *)

(** The world [w] after the lines [ms] are printed. *)
Definition printed (w : world) (ms : list message) : world :=
  mkworld (files w) (clock w) (ticks w) (stdout w ++ ms).

Definition midnight (d : date) : datetime := mkdatetime d 0 0 0 0.

Definition sample_world : world :=
  mkworld (fun _ => None) (fun _ => midnight (mkdate 2024 1 15)) 0 [].

Definition john_doe : Contact :=
  mkContact "John" "Doe" "(555) 123-4567" None (Some "1 Main St")
    (midnight (mkdate 2024 1 15)) (midnight (mkdate 2024 1 15)).

Definition jane_smith : Contact :=
  mkContact "Jane" "Smith" "(555) 999-8888" (Some "jane@example.com") None
    (midnight (mkdate 2024 2 1)) (midnight (mkdate 2024 2 1)).

Definition bad_phone : Contact :=
  mkContact "Al" "Adams" "123-456-7890" None None
    (midnight (mkdate 2024 1 15)) (midnight (mkdate 2024 1 15)).

(** A line as a text file yields it: no line end but at the end. *)
Definition line_end (t : string) : Prop :=
  t = EmptyString \/ t = String File.LF EmptyString \/
  t = String File.CR EmptyString \/
  t = String File.CR (String File.LF EmptyString).

Definition no_newline (s : string) : Prop :=
  all_chars (fun c => Csv.is_newline c = false) s.

Definition well_formed_line (l : string) : Prop :=
  exists body t : string, l = body +++ t /\ no_newline body /\ line_end t.

(** The world [w] with the text [text] in the file [path]. *)
Definition with_file (w : world) (path text : string) : world :=
  mkworld (fun p => if String.eqb p path then Some text else files w p)
    (clock w) (ticks w) (stdout w).

(** A row that has the three fields [batch_import] needs. *)
Definition has_three_fields (row : list string) : bool :=
  (3 <=? length row)%nat.

(** The phone number of a row is not valid. *)
Definition invalid_phone (row : list string) : bool :=
  negb (validate_phone_number (nth 2 row EmptyString)).

(** The line of the report of [batch_import] for a row. *)
Definition invalid_line (row : list string) : string :=
  nth 0 row EmptyString +++ " " +++ nth 1 row EmptyString +++ ": "
  +++ nth 2 row EmptyString.

(** The lines [batch_import] prints at its end. *)
Definition report_lines (csv_file : string) (invalid_contacts : list string)
  : list message :=
  match invalid_contacts with
  | [] => [BatchImportCompleted csv_file]
  | _ :: _ => InvalidPhoneNumbers :: map Line invalid_contacts
  end.

(** The world [w] after [n] more readings of the clock. *)
Definition ticked (n : nat) (w : world) : world :=
  mkworld (files w) (clock w) (n + ticks w) (stdout w).

(** An import source with a row of two fields and a row of three. *)
Definition sample_import : string :=
  "Ann,Lee" +++ String File.LF ("Bob,Ray,(111) 222-3333" +++ String File.LF "").

(** A cell as the reader gives it back from the persistence file. *)
Definition read_cell (o : option string) : string :=
  universal_newlines (Csv.cell o).

(** The records read from the text [text] of a file opened with universal
    newlines, when the part [cur] of the current line is already taken from
    the file and the parser was [p] at the start of that line. *)
Definition resume (p : Csv.parser) (cur text : string) : Csv.rows :=
  Csv.read p (File.splitlines true cur text).

(** A character that is written as it is, outside quotes. *)
Definition plain (c : ascii) : Prop := Csv.needs_quotes c = false.

(** A parser at the start of a field. *)
Definition fresh (q : Csv.parser) : Prop :=
  (Csv.state q = Csv.START_FIELD \/ Csv.state q = Csv.START_RECORD) /\
  Csv.field q = EmptyString.

(** The phone number of the contact is valid. *)
Definition valid_contact (c : Contact) : bool :=
  validate_phone_number (phone_number c).

(** The record read back from the row written for a contact. *)
Definition reloaded_row (c : Contact) : list string :=
  map read_cell (contact_row c).

(** No carriage return in the text. *)
Definition no_cr (s : string) : Prop :=
  all_chars (fun c => File.is_cr c = false) s.

(** The phone book and the world after a method call, the result left
    out. *)
Definition exec {A : Type} (m : M PhoneBook A) (s : PhoneBook * world)
  : PhoneBook * world :=
  match m (fst s) (snd s) with
  | (_, self, w) => (self, w)
  end.

(** A phone book whose one record got a phone number that is not valid:
    [update_contact_by_name] checks nothing. *)
Definition stale_store : PhoneBook * world :=
  exec (update_contact_by_name "John" "Doe"
          (mkinfo None None (Some "555-1234") None None))
    (exec (add_contact john_doe) (PhoneBook_init "/app", sample_world)).

(** The phone book of John Doe, who has no e-mail. *)
Definition john_store : PhoneBook * world :=
  exec (add_contact john_doe) (PhoneBook_init "/app", sample_world).

(** Saving the phone book [s], then loading the file into a fresh one. *)
Definition save_then_load (s : PhoneBook * world) : PhoneBook * world :=
  exec load_from_file
    (mkPhoneBook [] (filename (fst s)), snd (exec save_to_file s)).

(** ** Further properties of the code, in plain terms *)

(** Nondecreasing first names, case ignored. *)
Definition first_name_le (a b : Contact) : Prop :=
  String.leb (Text.lower (first_name a)) (Text.lower (first_name b)) = true.

(** The records of [l] whose key is [k], in their order. *)
Definition with_key {A : Type} (key : A -> string) (k : string) (l : list A)
  : list A :=
  filter (fun x => String.eqb (key x) k) l.

Definition smith_store : PhoneBook :=
  mkPhoneBook [john_doe; jane_smith] "contacts.csv".

(** The names of the contact are the given ones, case ignored (whitespace
    counts). *)
Definition has_name (first last : string) (c : Contact) : Prop :=
  Text.lower (first_name c) = Text.lower first /\
  Text.lower (last_name c) = Text.lower last.

(** The contact [c] after an update with the values [info] at the time
    [t]. *)
Definition with_info (info : contact_info) (t : datetime) (c : Contact)
  : Contact :=
  mkContact (updated (new_first_name info) (first_name c))
    (updated (new_last_name info) (last_name c))
    (updated (new_phone_number info) (phone_number c))
    (updated_option (new_email info) (email c))
    (updated_option (new_address info) (address c))
    (created_at c) t.

(** Two records named John Doe, the second with another phone number. *)
Definition john_doe_2 : Contact :=
  mkContact "JOHN" "doe" "(555) 000-0000" None None
    (midnight (mkdate 2024 3 1)) (midnight (mkdate 2024 3 1)).

Definition new_phone : contact_info :=
  mkinfo None None (Some "(555) 765-4321") None None.

(** The record is made of the fields of the row: the first three, and the
    fourth and fifth as e-mail and address when the row has them. *)
Definition from_row (row : list string) (c : Contact) : Prop :=
  first_name c = nth 0 row EmptyString /\
  last_name c = nth 1 row EmptyString /\
  phone_number c = nth 2 row EmptyString /\
  email c = (if (3 <? length row)%nat then nth_error row 3 else None) /\
  address c = (if (4 <? length row)%nat then nth_error row 4 else None).

(** A row that gives a record: three fields at least and a valid phone
    number. *)
Definition importable (row : list string) : bool :=
  has_three_fields row && negb (invalid_phone row).

(** The row of a batch delete names the contact: it has two fields at
    least, and they are the names of the contact, case and surrounding
    whitespace ignored. *)
Definition names (row : list string) (c : Contact) : Prop :=
  2 <= length row /\
  same_name (nth 0 row EmptyString) (nth 1 row EmptyString) c.

(** The test of [delete_row] on a contact: the row leaves it in the phone
    book. *)
Definition spared (row : list string) (c : Contact) : bool :=
  negb (2 <=? length row)%nat
  || kept (Text.strip (Text.strip (nth 0 row EmptyString)))
       (Text.strip (Text.strip (nth 1 row EmptyString))) c.

(** A source of a batch delete: a header and two rows. *)
Definition sample_delete : string :=
  "first,last" +++ String File.LF
    (" john ,DOE" +++ String File.LF ("Zed" +++ String File.LF "")).

(** What a row does to the phone book when it is taken in: [l] are the
    records it gives, none or one. *)
Definition takes_in (row : list string) (self self' : PhoneBook)
  (l : list Contact) : Prop :=
  filename self' = filename self /\
  Forall2 from_row (filter importable [row]) l /\
  Permutation (contacts self') (contacts self ++ l) /\
  (StronglySorted last_name_le (contacts self) \/ l <> [] ->
   StronglySorted last_name_le (contacts self')).

(** The records of the file [path] as a reader gives them, none when the
    file is missing. *)
Definition rows_of_file (translate : bool) (w : world) (path : string)
  : list (list string) :=
  match files w path with
  | Some text => Csv.records (Csv.reader (File.lines translate text))
  | None => []
  end.

(** The five values of the contact have no carriage return. *)
Definition cr_free (c : Contact) : Prop :=
  no_cr (first_name c) /\ no_cr (last_name c) /\ no_cr (phone_number c) /\
  no_cr (Csv.cell (email c)) /\ no_cr (Csv.cell (address c)).

(** The lines [display_contacts] prints for a list of contacts. *)
Definition display_lines (l : list Contact) : list message :=
  match l with
  | [] => [NoContactsFound]
  | _ :: _ => []
  end ++ map (fun c => Line (Contact_str c)) l.

(** main.py, [validate_email]: the text has an at sign and a dot. *)
Definition validate_email (email : string) : bool :=
  Text.contains "@" email && Text.contains "." email.

(** The character occurs in the text. *)
Fixpoint occurs (c : ascii) (s : string) : Prop :=
  match s with
  | EmptyString => False
  | String d s' => d = c \/ occurs c s'
  end.

(** The clock never goes back, for the order [le] of times. *)
Definition monotone (le : datetime -> datetime -> Prop) (w : world) : Prop :=
  forall i j : nat, i <= j -> le (clock w i) (clock w j).

(** The name of a row as [batch_delete] reports it. *)
Definition reported_name (row : list string) : string :=
  Text.strip (nth 0 row EmptyString) +++ " "
  +++ Text.strip (nth 1 row EmptyString).

Definition has_two_fields (row : list string) : bool :=
  (2 <=? length row)%nat.

(** A clock that advances by a day at each reading, from the first of
    January 2024. *)
Definition day_clock (n : nat) : datetime :=
  midnight (mkdate 2024 1 (N.of_nat (S n))).

Definition day_le (a b : datetime) : Prop :=
  (day (dt_date a) <= day (dt_date b))%N.

Definition day_world : world := mkworld (fun _ => None) day_clock 0 [].

(** A source of a batch delete that names nobody of the sample phone
    book. *)
Definition sample_strangers : string :=
  "first,last" +++ String File.LF
    ("Zed,Young" +++ String File.LF ("Joe" +++ String File.LF "")).

(** The records read from the text [text] of a file opened with
    [newline=''], when the part [cur] of the current line is already taken
    from the file and the parser was [p] at the start of that line. *)
Definition resume_raw (p : Csv.parser) (cur text : string) : Csv.rows :=
  Csv.read p (File.splitlines false cur text).

(** The cells of the row written for a contact. *)
Definition written_row (c : Contact) : list string :=
  map Csv.cell (contact_row c).

(** The contact [c'] has the five values of [c], an absent e-mail or
    address as the empty string. *)
Definition imported_back (c c' : Contact) : Prop :=
  first_name c' = first_name c /\
  last_name c' = last_name c /\
  phone_number c' = phone_number c /\
  email c' = Some (Csv.cell (email c)) /\
  address c' = Some (Csv.cell (address c)).

(** A contact with a line break in its address. *)
Definition two_lines : Contact :=
  mkContact "Ann" "Lee" "(555) 222-3333" None
    (Some ("1 Main St" +++ String File.CR (String File.LF "Springfield")))
    (midnight (mkdate 2024 1 15)) (midnight (mkdate 2024 1 15)).

(** A row that is read and refused: three fields at least and a phone
    number that is not valid. *)
Definition refused (row : list string) : bool :=
  has_three_fields row && invalid_phone row.

(** A persistence file with a row of two fields, a row with a bad phone
    number and a good row. *)
Definition sample_persistence : string :=
  "Ann,Lee" +++ String File.LF
    ("Al,Adams,123" +++ String File.LF
       ("Bob,Ray,(111) 222-3333,," +++ String File.LF "")).

(** * Properties *)

(** ** Strings *)

Lemma append_empty_r (s : string) : s +++ EmptyString = s.
Proof. induction s as [| c s IH]; simpl; [reflexivity | now rewrite IH]. Qed.

Lemma append_assoc (a b c : string) : (a +++ b) +++ c = a +++ b +++ c.
Proof. induction a as [| x a IH]; simpl; [reflexivity | now rewrite IH]. Qed.

Lemma length_append (a b : string) :
  String.length (a +++ b) = String.length a + String.length b.
Proof. induction a as [| x a IH]; simpl; [reflexivity | now rewrite IH]. Qed.

Lemma length_zero_empty (s : string) : String.length s = 0 -> s = EmptyString.
Proof. destruct s; [reflexivity | discriminate]. Qed.

(** ** The phone number format *)

Lemma is_digit_decimal (c : ascii) : Text.is_digit c = true <-> decimal_digit c.
Proof.
  unfold decimal_digit.
  destruct c as [[] [] [] [] [] [] [] []]; vm_compute;
    (split; [ first [ discriminate | intros _; tauto ]
            | first [ reflexivity
                    | intros H; repeat destruct H as [H | H];
                      try discriminate H; try contradiction ] ]).
Qed.

Ltac match_step H :=
  match type of H with
  | context [match ?s with EmptyString => None | String _ _ => _ end] =>
      is_var s; destruct s as [| ? ?]; [discriminate H |]
  | context [if ?b then _ else None] =>
      let E := fresh "E" in destruct b eqn:E; [| discriminate H]
  end.

Lemma validate_phone_number_sound (s : string) :
  validate_phone_number s = true -> phone_format s.
Proof.
  unfold validate_phone_number, Re.fullmatch, phone_pattern.
  cbn [Re.rep Re.rmatch Re.in_class].
  intros H. repeat match_step H.
  match goal with
  | E : Text.is_empty ?s = true |- _ => destruct s; [| discriminate E]
  end.
  repeat match goal with
         | E : (_ =? _)%char = true |- _ => apply Ascii.eqb_eq in E; subst
         | E : Text.is_digit _ = true |- _ => apply is_digit_decimal in E
         end.
  lazymatch goal with
  | |- phone_format
         (String _ (String ?a (String ?b (String ?c (String _ (String _
           (String ?d (String ?e (String ?f (String _
             (String ?g (String ?h (String ?i (String ?j _)))))))))))))) =>
      exists (String a (String b (String c ""))),
        (String d (String e (String f ""))),
        (String g (String h (String i (String j ""))))
  end.
  unfold digits; simpl. intuition.
Qed.

Lemma digits_inv3 (s : string) :
  digits 3 s ->
  exists a b c : ascii,
    s = String a (String b (String c "")) /\
    Text.is_digit a = true /\ Text.is_digit b = true /\
    Text.is_digit c = true.
Proof.
  intros [Hl Hd]. destruct s as [|a [|b [|c [|]]]]; try discriminate Hl.
  simpl in Hd. exists a, b, c. rewrite !is_digit_decimal. intuition.
Qed.

Lemma digits_inv4 (s : string) :
  digits 4 s ->
  exists a b c d : ascii,
    s = String a (String b (String c (String d ""))) /\
    Text.is_digit a = true /\ Text.is_digit b = true /\
    Text.is_digit c = true /\ Text.is_digit d = true.
Proof.
  intros [Hl Hd]. destruct s as [|a [|b [|c [|d [|]]]]]; try discriminate Hl.
  simpl in Hd. exists a, b, c, d. rewrite !is_digit_decimal. intuition.
Qed.

Lemma validate_phone_number_complete (s : string) :
  phone_format s -> validate_phone_number s = true.
Proof.
  intros (area & exchange & line & Ha & He & Hl & ->).
  apply digits_inv3 in Ha as (a1 & a2 & a3 & -> & Ha1 & Ha2 & Ha3).
  apply digits_inv3 in He as (e1 & e2 & e3 & -> & He1 & He2 & He3).
  apply digits_inv4 in Hl as (l1 & l2 & l3 & l4 & -> & Hl1 & Hl2 & Hl3 & Hl4).
  unfold validate_phone_number, Re.fullmatch, phone_pattern.
  cbn. rewrite Ha1, Ha2, Ha3, He1, He2, He3, Hl1, Hl2, Hl3, Hl4. reflexivity.
Qed.

Lemma phone_format_length s : phone_format s -> String.length s = 14.
Proof.
  intros (area & exchange & line & Ha & He & Hl & ->).
  apply digits_inv3 in Ha as (a1 & a2 & a3 & -> & _).
  apply digits_inv3 in He as (e1 & e2 & e3 & -> & _).
  apply digits_inv4 in Hl as (l1 & l2 & l3 & l4 & -> & _). reflexivity.
Qed.


(** ** Adding a contact *)

Lemma add_contact_invalid (contact : Contact) (self : PhoneBook) (w : world) :
  validate_phone_number (phone_number contact) = false ->
  add_contact contact self w
  = (Return tt, self, printed w [InvalidPhoneNumberFormat]).
Proof. intros H. unfold add_contact. rewrite H. reflexivity. Qed.

Lemma add_contact_valid (contact : Contact) (self : PhoneBook) (w : world) :
  validate_phone_number (phone_number contact) = true ->
  add_contact contact self w
  = (Return tt,
     mkPhoneBook
       (sorted (fun c => Text.lower (last_name c)) (contacts self ++ [contact]))
       (filename self),
     w).
Proof. intros H. unfold add_contact. rewrite H. reflexivity. Qed.

(** C4.  Adding a record whose phone number is not valid returns normally
    and leaves the phone book as it was, contact list included; the failure
    is printed, nothing else changes. *)
Theorem add_contact_invalid_phone_unchanged
  (contact : Contact) (self : PhoneBook) (w : world) :
  validate_phone_number (phone_number contact) = false ->
  exists w' : world,
    add_contact contact self w = (Return tt, self, w') /\
    stdout w' = stdout w ++ [InvalidPhoneNumberFormat] /\
    files w' = files w /\ ticks w' = ticks w.
Proof.
  intros H. exists (printed w [InvalidPhoneNumberFormat]).
  rewrite (add_contact_invalid _ _ _ H). repeat split.
Qed.

Lemma add_contact_invalid_phone_unchanged_witness :
  validate_phone_number (phone_number bad_phone) = false /\
  exists w' : world,
    add_contact bad_phone (mkPhoneBook [john_doe] "contacts.csv") sample_world
    = (Return tt, mkPhoneBook [john_doe] "contacts.csv", w') /\
    stdout w' = stdout sample_world ++ [InvalidPhoneNumberFormat] /\
    files w' = files sample_world /\ ticks w' = ticks sample_world.
Proof.
  split; [reflexivity |].
  apply (add_contact_invalid_phone_unchanged bad_phone
           (mkPhoneBook [john_doe] "contacts.csv") sample_world).
  reflexivity.
Defined.

(** ** Updating a contact *)

Lemma truthy_updated (new : option string) (old : string) :
  (if Text.truthy new then Csv.cell new else old) = updated new old.
Proof. destruct new as [[| c s] |]; reflexivity. Qed.

Lemma truthy_updated_option (new old : option string) :
  (if Text.truthy new then new else old) = updated_option new old.
Proof. destruct new as [[| c s] |]; reflexivity. Qed.

(** C9.  An update overwrites each of the five attributes whose new value
    is given and not empty, leaves the others (and [created_at]) as they
    were, and sets [updated_at] to the time of the call in every case. *)
Theorem update_contact_fields
  (first last phone mail addr : option string) (self : Contact) (w : world) :
  exists (self' : Contact) (w' : world),
    update_contact first last phone mail addr self w = (Return tt, self', w') /\
    first_name self' = updated first (first_name self) /\
    last_name self' = updated last (last_name self) /\
    phone_number self' = updated phone (phone_number self) /\
    email self' = updated_option mail (email self) /\
    address self' = updated_option addr (address self) /\
    created_at self' = created_at self /\
    updated_at self' = clock w (ticks w) /\
    ticks w' = S (ticks w).
Proof.
  unfold update_contact, bind, get, put, now. simpl.
  rewrite !truthy_updated, !truthy_updated_option.
  eexists _, _. split; [reflexivity |]. simpl. repeat split.
Qed.

(** ** Order of strings *)

Lemma ascii_compare_trans (a b c : ascii) (o : comparison) :
  Ascii.compare a b = o -> Ascii.compare b c = o -> Ascii.compare a c = o.
Proof.
  unfold Ascii.compare. intros H1 H2. destruct o.
  - apply N.compare_eq_iff in H1, H2. apply N.compare_eq_iff. congruence.
  - rewrite N.compare_lt_iff in *. lia.
  - rewrite N.compare_gt_iff in *. lia.
Qed.

Lemma string_compare_refl (s : string) : String.compare s s = Eq.
Proof.
  induction s as [| c s IH]; simpl; [reflexivity |].
  unfold Ascii.compare. now rewrite N.compare_refl.
Qed.

Lemma string_lt_trans (a b c : string) :
  String.compare a b = Lt -> String.compare b c = Lt ->
  String.compare a c = Lt.
Proof.
  revert b c. induction a as [| x a IH]; intros [| y b] [| z c]; simpl;
    try discriminate; try reflexivity.
  destruct (Ascii.compare x y) eqn:Hxy; try discriminate;
    destruct (Ascii.compare y z) eqn:Hyz; try discriminate; intros H1 H2.
  - rewrite (ascii_compare_trans _ _ _ _ Hxy Hyz). eauto.
  - apply Ascii.compare_eq_iff in Hxy. subst. now rewrite Hyz.
  - apply Ascii.compare_eq_iff in Hyz. subst. now rewrite Hxy.
  - now rewrite (ascii_compare_trans _ _ _ _ Hxy Hyz).
Qed.

Lemma string_leb_trans (a b c : string) :
  String.leb a b = true -> String.leb b c = true -> String.leb a c = true.
Proof.
  unfold String.leb.
  destruct (String.compare a b) eqn:Hab; try discriminate;
    destruct (String.compare b c) eqn:Hbc; try discriminate; intros _ _.
  - apply String.compare_eq_iff in Hab, Hbc. subst.
    now rewrite string_compare_refl.
  - apply String.compare_eq_iff in Hab. subst. now rewrite Hbc.
  - apply String.compare_eq_iff in Hbc. subst. now rewrite Hab.
  - now rewrite (string_lt_trans _ _ _ Hab Hbc).
Qed.

Lemma string_ltb_leb (a b : string) :
  String.ltb a b = true -> String.leb a b = true.
Proof.
  unfold String.ltb, String.leb. destruct (String.compare a b); congruence.
Qed.

Lemma string_not_ltb_leb (a b : string) :
  String.ltb a b = false -> String.leb b a = true.
Proof.
  unfold String.ltb, String.leb. rewrite (String.compare_antisym b a).
  destruct (String.compare a b); simpl; congruence.
Qed.

(** ** Stable insertion sorts *)

Section SortedFacts.
Context {A : Type} (key : A -> string).

Let le (a b : A) : Prop := String.leb (key a) (key b) = true.

Lemma insert_sorted_perm (x : A) (l : list A) :
  Permutation (insert_sorted key x l) (x :: l).
Proof.
  induction l as [| y l IH]; simpl; [reflexivity |].
  destruct (String.ltb (key x) (key y)); [reflexivity |].
  rewrite IH. apply perm_swap.
Qed.

Lemma insert_sorted_HdRel (x y : A) (l : list A) :
  le y x -> HdRel le y l -> HdRel le y (insert_sorted key x l).
Proof.
  intros Hyx Hl. destruct l as [| z l]; simpl.
  - now constructor.
  - destruct (String.ltb (key x) (key z)); constructor;
      [assumption | now inversion Hl].
Qed.

Lemma insert_sorted_Sorted (x : A) (l : list A) :
  Sorted le l -> Sorted le (insert_sorted key x l).
Proof.
  induction 1 as [| y l Hs IH Hd]; simpl.
  - repeat constructor.
  - destruct (String.ltb (key x) (key y)) eqn:E.
    + constructor; [now constructor |].
      constructor. now apply string_ltb_leb.
    + constructor; [assumption |].
      apply insert_sorted_HdRel; [| assumption].
      now apply string_not_ltb_leb.
Qed.

Lemma fold_insert_Sorted (l acc : list A) :
  Sorted le acc ->
  Sorted le (fold_left (fun acc x => insert_sorted key x acc) l acc).
Proof.
  revert acc. induction l as [| x l IH]; intros acc H; simpl;
    [assumption | apply IH, insert_sorted_Sorted, H].
Qed.

Lemma fold_insert_perm (l acc : list A) :
  Permutation (fold_left (fun acc x => insert_sorted key x acc) l acc)
    (acc ++ l).
Proof.
  revert acc. induction l as [| x l IH]; intros acc; simpl.
  - now rewrite app_nil_r.
  - rewrite IH, insert_sorted_perm. apply Permutation_middle.
Qed.

Lemma sorted_Sorted (l : list A) : Sorted le (sorted key l).
Proof. apply fold_insert_Sorted. constructor. Qed.

Lemma sorted_perm (l : list A) : Permutation (sorted key l) l.
Proof. apply (fold_insert_perm l []). Qed.

Lemma sorted_StronglySorted (l : list A) : StronglySorted le (sorted key l).
Proof.
  apply Sorted_StronglySorted; [| apply sorted_Sorted].
  intros a b c. apply string_leb_trans.
Qed.
End SortedFacts.

(** ** Sequences of additions *)

Lemma for_each_add_contact (cs : list Contact) (self : PhoneBook) (w : world) :
  StronglySorted last_name_le (contacts self) ->
  exists (self' : PhoneBook) (w' : world),
    for_each cs add_contact self w = (Return tt, self', w') /\
    filename self' = filename self /\
    StronglySorted last_name_le (contacts self') /\
    Permutation (contacts self')
      (contacts self
       ++ filter (fun c => validate_phone_number (phone_number c)) cs).
Proof.
  revert self w. induction cs as [| c cs IH]; intros self w Hs; simpl.
  - exists self, w. rewrite app_nil_r. repeat split; [assumption | reflexivity].
  - unfold bind at 1.
    destruct (validate_phone_number (phone_number c)) eqn:Hv.
    + rewrite (add_contact_valid _ _ _ Hv).
      edestruct IH as (self' & w' & Hrun & Hf & Hs' & Hp);
        [| exists self', w'; split; [exact Hrun |] ].
      * apply sorted_StronglySorted.
      * simpl in *. repeat split; [assumption | assumption |].
        rewrite Hp, sorted_perm, <- app_assoc. reflexivity.
    + rewrite (add_contact_invalid _ _ _ Hv). apply IH, Hs.
Qed.

(** C5.  From the empty phone book, every sequence of additions ends with
    the contacts in nondecreasing order of last name, case ignored; the
    contacts are those of the additions that succeeded. *)
Theorem add_contact_sorted_by_last_name
  (module_dir : string) (cs : list Contact) (w : world) :
  exists (self' : PhoneBook) (w' : world),
    for_each cs add_contact (PhoneBook_init module_dir) w
    = (Return tt, self', w') /\
    StronglySorted last_name_le (contacts self') /\
    Permutation (contacts self')
      (filter (fun c => validate_phone_number (phone_number c)) cs).
Proof.
  destruct (for_each_add_contact cs (PhoneBook_init module_dir) w)
    as (self' & w' & Hrun & _ & Hs & Hp); [constructor |].
  exists self', w'. repeat split; assumption.
Qed.

(** ** Removing by name *)

Lemma filter_length_le {A : Type} (p : A -> bool) (l : list A) :
  length (filter p l) <= length l.
Proof.
  induction l as [| x l IH]; simpl; [lia |]. destruct (p x); simpl; lia.
Qed.

Lemma filter_idempotent {A : Type} (p : A -> bool) (l : list A) :
  filter p (filter p l) = filter p l.
Proof.
  induction l as [| x l IH]; simpl; [reflexivity |].
  destruct (p x) eqn:E; simpl; [rewrite E, IH |]; auto.
Qed.

Lemma kept_same_name (first last : string) (c : Contact) :
  kept (Text.strip first) (Text.strip last) c = true <-> ~ same_name first last c.
Proof.
  unfold kept, same_name.
  destruct (String.eqb_spec (Text.lower (Text.strip (first_name c)))
              (Text.lower (Text.strip first))) as [E1 | E1];
    destruct (String.eqb_spec (Text.lower (Text.strip (last_name c)))
                (Text.lower (Text.strip last))) as [E2 | E2];
    simpl; intuition discriminate.
Qed.

Lemma remove_contact_by_name_run
  (first last : string) (self : PhoneBook) (w : world) :
  let l' := filter (kept (Text.strip first) (Text.strip last)) (contacts self) in
  remove_contact_by_name first last self w
  = (Return tt, mkPhoneBook l' (filename self),
     if (length l' <? length (contacts self))%nat
     then printed w [ContactDeleted (Text.strip first) (Text.strip last)]
     else w).
Proof.
  unfold remove_contact_by_name, bind, get_contacts, set_contacts, get, put,
    ret, bind. simpl.
  destruct (length _ <? length _)%nat; reflexivity.
Qed.

(** C6.  Removing by name keeps, in their order, exactly the records whose
    names are not the given ones (case and surrounding whitespace ignored on
    both sides), so that every matching record goes; removing the same
    names again changes nothing. *)
Theorem remove_contact_by_name_all_and_idempotent
  (first last : string) (self : PhoneBook) (w : world) :
  exists (self' : PhoneBook) (w' : world) (keep : Contact -> bool),
    remove_contact_by_name first last self w = (Return tt, self', w') /\
    (forall c : Contact, keep c = true <-> ~ same_name first last c) /\
    contacts self' = filter keep (contacts self) /\
    filename self' = filename self /\
    (forall c : Contact, In c (contacts self') -> ~ same_name first last c) /\
    remove_contact_by_name first last self' w' = (Return tt, self', w').
Proof.
  rewrite remove_contact_by_name_run.
  eexists _, _, (kept (Text.strip first) (Text.strip last)).
  split; [reflexivity |]. simpl.
  split; [apply kept_same_name |]. repeat split.
  - intros c Hc. apply filter_In in Hc. now apply kept_same_name.
  - rewrite remove_contact_by_name_run. simpl. rewrite filter_idempotent.
    rewrite Nat.ltb_irrefl. reflexivity.
Qed.

(** ** Searching *)

Lemma startswith_append (q s : string) :
  Text.startswith q s = true <-> exists after : string, s = q +++ after.
Proof.
  revert s. induction q as [| c q IH]; intros s; simpl.
  - split; [intros _; now exists s | reflexivity].
  - destruct s as [| d s].
    + split; [discriminate | intros [after H]; discriminate H].
    + rewrite andb_true_iff, IH, Ascii.eqb_eq.
      split; [intros [-> [after ->]]; now exists after |].
      intros [after H]. injection H as -> ->. split; [reflexivity | now exists after].
Qed.

Lemma contains_substring_of (q s : string) :
  Text.contains q s = true <-> substring_of q s.
Proof.
  unfold substring_of. induction s as [| c s IH]; simpl.
  - rewrite orb_false_r, startswith_append. split.
    + intros [after H]. now exists EmptyString, after.
    + intros ([| d before] & after & H); [now exists after | discriminate H].
  - rewrite orb_true_iff, startswith_append, IH. split.
    + intros [[after H] | (before & after & H)].
      * now exists EmptyString, after.
      * exists (String c before), after. simpl. now rewrite H.
    + intros ([| d before] & after & H).
      * left. now exists after.
      * right. exists before, after. simpl in H. congruence.
Qed.

Lemma contains_empty (s : string) : Text.contains EmptyString s = true.
Proof. destruct s; reflexivity. Qed.

Lemma filter_all {A : Type} (p : A -> bool) (l : list A) :
  (forall x, p x = true) -> filter p l = l.
Proof.
  intros H. induction l as [| x l IH]; simpl; [reflexivity |].
  now rewrite H, IH.
Qed.

Lemma found_substring_of (q : string) (c : Contact) :
  found q c = true <->
  substring_of q (Text.lower (first_name c)) \/
  substring_of q (Text.lower (last_name c)) \/
  substring_of q (phone_number c).
Proof.
  unfold found. rewrite !orb_true_iff, !contains_substring_of. tauto.
Qed.

(** C7, as amended.  The query is trimmed and put in lower case; the result
    is, in the order of the phone book, exactly the records in which that
    text occurs in the first name in lower case, in the last name in lower
    case or in the phone number as it is stored.  A query that is empty
    once trimmed gives every record.  Nothing is changed. *)
Theorem search_contact_normalised_query
  (query : string) (self : PhoneBook) (w : world) :
  let q := Text.lower (Text.strip query) in
  exists result : list Contact,
    search_contact query self w = (Return result, self, w) /\
    result = filter (found q) (contacts self) /\
    (forall c : Contact,
        found q c = true <->
        substring_of q (Text.lower (first_name c)) \/
        substring_of q (Text.lower (last_name c)) \/
        substring_of q (phone_number c)) /\
    (Text.strip query = EmptyString -> result = contacts self).
Proof.
  intros q. exists (filter (found q) (contacts self)).
  split; [reflexivity |]. split; [reflexivity |].
  split; [apply found_substring_of |].
  intros H. subst q. rewrite H. apply filter_all.
  intros c. unfold found. simpl. now rewrite contains_empty.
Qed.

(** C7, as stated, fails: the query [" doe"], with a space in front, occurs
    in no name and in no phone number of the phone book, and the search
    returns John Doe. *)
Lemma search_contact_untrimmed_query :
  let self := mkPhoneBook [john_doe; jane_smith] "contacts.csv" in
  search_contact " doe" self sample_world
  = (Return [john_doe], self, sample_world) /\
  ~ (ci_substring_of " doe" (first_name john_doe) \/
     ci_substring_of " doe" (last_name john_doe) \/
     substring_of " doe" (phone_number john_doe)).
Proof.
  split; [reflexivity |].
  unfold ci_substring_of. rewrite <- !contains_substring_of.
  vm_compute. intuition discriminate.
Qed.

(** ** Filtering by date *)

Lemma date_leb_le (d1 d2 : date) : date_leb d1 d2 = true <-> date_le d1 d2.
Proof.
  unfold date_leb, date_le.
  rewrite !orb_true_iff, !andb_true_iff, !orb_true_iff, !andb_true_iff,
    !N.ltb_lt, !N.eqb_eq, N.leb_le.
  tauto.
Qed.

Lemma print_run {T : Type} (m : message) (self : T) (w : world) :
  print m self w = (Return tt, self, printed w [m]).
Proof. reflexivity. Qed.

Lemma for_each_print {T A : Type} (f : A -> message) (l : list A)
  (self : T) (w : world) :
  for_each l (fun x => print (f x)) self w
  = (Return tt, self, printed w (map f l)).
Proof.
  revert w. induction l as [| x l IH]; intros w; simpl.
  - unfold ret, printed. rewrite app_nil_r. now destruct w.
  - unfold bind, print. rewrite IH. unfold printed. simpl.
    now rewrite <- app_assoc.
Qed.

(** C8.  When both bounds parse as dates, the result is exactly the records
    whose creation date lies between them, both bounds included; when one
    does not, the result is the empty list, the error is printed and
    nothing is raised.  The phone book is unchanged in both cases. *)
Theorem filter_by_date_inclusive_or_empty
  (start_date end_date : string) (self : PhoneBook) (w : world) :
  match strptime_date start_date, strptime_date end_date with
  | Some s, Some e =>
      (exists w' : world,
          filter_by_date start_date end_date self w
          = (Return (filter (in_range s e) (contacts self)), self, w')) /\
      (forall c : Contact,
          in_range s e c = true <->
          date_le s (dt_date (created_at c)) /\
          date_le (dt_date (created_at c)) e)
  | _, _ =>
      filter_by_date start_date end_date self w
      = (Return [], self, printed w [InvalidDateFormat])
  end.
Proof.
  unfold filter_by_date, try_except, bind at 1.
  destruct (strptime_date start_date) as [s |]; [| reflexivity].
  cbn [lift_option ret]. unfold bind at 1.
  destruct (strptime_date end_date) as [e |]; [| reflexivity].
  cbn [lift_option ret]. split.
  - unfold get_contacts. unfold bind, get, ret. cbv beta iota.
    destruct (filter (in_range s e) (contacts self)) as [| c l] eqn:E.
    + eexists. reflexivity.
    + rewrite print_run. cbv beta iota.
      rewrite (for_each_print (fun contact => Line (Contact_str contact))).
      eexists. reflexivity.
  - intros c. unfold in_range. now rewrite andb_true_iff, !date_leb_le.
Qed.

Example strptime_date_iso :
  strptime_date "2024-01-31" = Some (mkdate 2024 1 31).
Proof. reflexivity. Qed.

Example strptime_date_leap_day :
  strptime_date "2024-02-29" = Some (mkdate 2024 2 29).
Proof. reflexivity. Qed.

Example strptime_date_one_digit :
  strptime_date "2024-1-5" = Some (mkdate 2024 1 5).
Proof. reflexivity. Qed.

Example strptime_date_year_zero : strptime_date "0000-01-01" = None.
Proof. reflexivity. Qed.

Example strptime_date_month_13 : strptime_date "2024-13-40" = None.
Proof. reflexivity. Qed.

Example strptime_date_no_leap_day : strptime_date "2023-02-29" = None.
Proof. reflexivity. Qed.

Example strptime_date_trailing : strptime_date "2024-01-31x" = None.
Proof. reflexivity. Qed.

Example filter_by_date_january :
  filter_by_date "2024-01-01" "2024-01-31"
    (mkPhoneBook [john_doe; jane_smith] "contacts.csv") sample_world
  = (Return [john_doe], mkPhoneBook [john_doe; jane_smith] "contacts.csv",
     printed sample_world
       [FoundInDateRange 1; Line (Contact_str john_doe)]).
Proof. reflexivity. Qed.

(** ** The reader never fails on the lines of a file *)

Lemma all_chars_append (P : ascii -> Prop) (a b : string) :
  all_chars P (a +++ b) <-> all_chars P a /\ all_chars P b.
Proof. induction a as [| c a IH]; simpl; [tauto | rewrite IH; tauto]. Qed.

Lemma splitlines_well_formed (translate : bool) (text cur : string) :
  no_newline cur ->
  Forall well_formed_line (File.splitlines translate cur text).
Proof.
  assert (Hend : forall cur t, no_newline cur -> line_end t ->
                               well_formed_line (cur +++ t)).
  { intros c t Hc Ht. now exists c, t. }
  remember (String.length text) as n eqn:Hn.
  revert text cur Hn. induction n as [n IH] using lt_wf_ind.
  intros text cur Hn Hcur. destruct text as [| c rest]; simpl.
  - destruct cur; simpl; constructor; [| constructor].
    exists (String a cur), EmptyString. rewrite append_empty_r.
    unfold line_end. auto.
  - destruct (File.is_lf c) eqn:Elf.
    + constructor.
      * apply Hend; [assumption | unfold line_end; auto].
      * apply (IH (String.length rest)); simpl in *; try lia; auto. exact I.
    + destruct (File.is_cr c) eqn:Ecr.
      * destruct rest as [| c' rest'].
        -- constructor; [| simpl; constructor].
           apply Hend; [assumption |]. unfold line_end. destruct translate; auto.
        -- destruct (File.is_lf c') eqn:Elf'.
           ++ constructor.
              ** apply Hend; [assumption |]. unfold line_end.
                 destruct translate; auto.
              ** apply (IH (String.length rest')); simpl in *; try lia; auto.
                 exact I.
           ++ constructor.
              ** apply Hend; [assumption |]. unfold line_end.
                 destruct translate; auto.
              ** apply (IH (String.length (String c' rest'))); simpl in *;
                   try lia; auto. exact I.
      * apply (IH (String.length rest)); simpl in *; try lia; auto.
        apply all_chars_append. split; [assumption |]. simpl.
        unfold Csv.is_newline. rewrite Elf, Ecr. auto.
Qed.

Lemma feed_append (p : Csv.parser) (a b : string) :
  Csv.feed p (a +++ b)
  = match Csv.feed p a with
    | Some p' => Csv.feed p' b
    | None => None
    end.
Proof.
  revert p. induction a as [| c a IH]; intros p; simpl; [reflexivity |].
  destruct (Csv.parse_process_char p (Some c)); [apply IH | reflexivity].
Qed.

Lemma process_char_not_newline (p : Csv.parser) (c : ascii) :
  Csv.state p <> Csv.EAT_CRNL -> Csv.is_newline c = false ->
  exists p' : Csv.parser,
    Csv.parse_process_char p (Some c) = Some p' /\
    Csv.state p' <> Csv.EAT_CRNL.
Proof.
  intros Hp Hc. unfold Csv.parse_process_char. rewrite Hc.
  destruct (Csv.state p) eqn:E; try contradiction;
    destruct (Ascii.eqb c Csv.quotechar);
    destruct (Ascii.eqb c Csv.delimiter);
    eexists; (split; [reflexivity | simpl; try rewrite E; discriminate]).
Qed.

Lemma feed_no_newline (body : string) (p : Csv.parser) :
  Csv.state p <> Csv.EAT_CRNL -> no_newline body ->
  exists p' : Csv.parser,
    Csv.feed p body = Some p' /\ Csv.state p' <> Csv.EAT_CRNL.
Proof.
  revert p. induction body as [| c body IH]; intros p Hp Hb; simpl.
  - now exists p.
  - destruct Hb as [Hc Hb].
    destruct (process_char_not_newline p c Hp Hc) as (p' & -> & Hp').
    now apply IH.
Qed.

Lemma is_newline_cases (c : ascii) :
  Csv.is_newline c = true -> c = File.LF \/ c = File.CR.
Proof.
  unfold Csv.is_newline, File.is_lf, File.is_cr.
  rewrite orb_true_iff, !Ascii.eqb_eq. tauto.
Qed.

(** After a line end character the parser is eating line ends or inside
    quotes. *)
Lemma process_char_newline (p : Csv.parser) (c : ascii) :
  Csv.is_newline c = true ->
  exists p' : Csv.parser,
    Csv.parse_process_char p (Some c) = Some p' /\
    (Csv.state p' = Csv.EAT_CRNL \/
     (Csv.state p = Csv.IN_QUOTED_FIELD /\
      Csv.state p' = Csv.IN_QUOTED_FIELD)).
Proof.
  intros Hc. unfold Csv.parse_process_char. rewrite Hc.
  destruct (is_newline_cases c Hc) as [-> | ->];
    destruct (Csv.state p) eqn:E; simpl;
    eexists; (split; [reflexivity | simpl; auto]).
Qed.

Lemma process_eol (p : Csv.parser) :
  exists p' : Csv.parser,
    Csv.parse_process_char p None = Some p' /\
    (Csv.state p' = Csv.START_RECORD \/
     (Csv.state p = Csv.IN_QUOTED_FIELD /\
      Csv.state p' = Csv.IN_QUOTED_FIELD)).
Proof.
  unfold Csv.parse_process_char.
  destruct (Csv.state p) eqn:E; eexists; (split; [reflexivity | simpl; auto]).
Qed.

Lemma feed_line_well_formed (p : Csv.parser) (l : string) :
  Csv.state p <> Csv.EAT_CRNL -> well_formed_line l ->
  exists p' : Csv.parser,
    Csv.feed_line p l = Some p' /\ Csv.state p' <> Csv.EAT_CRNL.
Proof.
  intros Hp (body & t & -> & Hb & Ht).
  unfold Csv.feed_line. rewrite feed_append.
  destruct (feed_no_newline body p Hp Hb) as (p1 & -> & Hp1).
  assert (Ht' : exists p2, Csv.feed p1 t = Some p2).
  { destruct Ht as [-> | [-> | [-> | ->]]]; simpl.
    - now exists p1.
    - destruct (process_char_newline p1 File.LF eq_refl) as (p2 & -> & _).
      now exists p2.
    - destruct (process_char_newline p1 File.CR eq_refl) as (p2 & -> & _).
      now exists p2.
    - destruct (process_char_newline p1 File.CR eq_refl) as (p2 & -> & _).
      destruct (process_char_newline p2 File.LF eq_refl) as (p3 & -> & _).
      now exists p3. }
  destruct Ht' as (p2 & ->).
  destruct (process_eol p2) as (p3 & -> & [H | [_ H]]);
    exists p3; (split; [reflexivity | rewrite H; discriminate]).
Qed.

Lemma read_never_fails (lines : list string) (p : Csv.parser) :
  Csv.state p <> Csv.EAT_CRNL -> Forall well_formed_line lines ->
  Csv.failed (Csv.read p lines) = false.
Proof.
  revert p. induction lines as [| l lines IH]; intros p Hp Hl; simpl.
  - now destruct (_ || _).
  - inversion Hl as [| ? ? Hwf Hl']; subst.
    destruct (feed_line_well_formed p l Hp Hwf) as (p' & -> & Hp').
    destruct (Csv.state_eqb (Csv.state p') Csv.START_RECORD); simpl.
    + apply IH; [discriminate | assumption].
    + now apply IH.
Qed.

Lemma reader_never_fails (translate : bool) (text : string) :
  Csv.failed (Csv.reader (File.lines translate text)) = false.
Proof.
  apply read_never_fails; [discriminate |].
  apply splitlines_well_formed. exact I.
Qed.

(** ** Batch import *)

Lemma Contact_init_run {T : Type} (first last phone : string)
  (mail addr : option string) (self : T) (w : world) :
  Contact_init first last phone mail addr self w
  = (Return (mkContact first last phone mail addr
               (clock w (ticks w)) (clock w (S (ticks w)))),
     self, ticked 2 w).
Proof. reflexivity. Qed.

Lemma import_row_short (row invalid : list string) (self : PhoneBook)
  (w : world) :
  has_three_fields row = false ->
  import_row row invalid self w = (Return invalid, self, w).
Proof.
  unfold has_three_fields, import_row. intros ->. reflexivity.
Qed.

Lemma import_row_long (row invalid : list string) (self : PhoneBook)
  (w : world) :
  has_three_fields row = true ->
  exists (self' : PhoneBook) (w' : world),
    import_row row invalid self w
    = (Return (if invalid_phone row then invalid ++ [invalid_line row]
               else invalid), self', w') /\
    stdout w' = stdout w /\ files w' = files w.
Proof.
  unfold has_three_fields, import_row, invalid_phone, invalid_line.
  intros ->. unfold bind at 1. rewrite Contact_init_run.
  destruct (validate_phone_number (nth 2 row EmptyString)) eqn:Hv; simpl.
  - unfold bind. rewrite add_contact_valid by exact Hv.
    eexists _, _. split; [reflexivity | split; reflexivity].
  - eexists _, _. split; [reflexivity | split; reflexivity].
Qed.

Lemma for_fold_cons {T A B : Type} (x : A) (l : list A) (acc acc' : B)
  (body : A -> B -> M T B) (self self' : T) (w w' : world) :
  body x acc self w = (Return acc', self', w') ->
  for_fold (x :: l) acc body self w = for_fold l acc' body self' w'.
Proof. intros H. simpl. unfold bind. now rewrite H. Qed.

Lemma import_loop (rows : list (list string)) (invalid : list string)
  (self : PhoneBook) (w : world) :
  let long := filter has_three_fields rows in
  exists (self' : PhoneBook) (w' : world),
    for_fold rows invalid import_row self w
    = (Return (invalid ++ map invalid_line (filter invalid_phone long)),
       self', w') /\
    for_fold long invalid import_row self w
    = (Return (invalid ++ map invalid_line (filter invalid_phone long)),
       self', w') /\
    stdout w' = stdout w /\ files w' = files w.
Proof.
  revert invalid self w.
  induction rows as [| row rows IH]; intros invalid self w; cbn [filter].
  - exists self, w. simpl. rewrite app_nil_r. repeat split.
  - destruct (has_three_fields row) eqn:E.
    + destruct (import_row_long row invalid self w E)
        as (self1 & w1 & Hrow & Hout & Hfiles).
      rewrite !(for_fold_cons _ _ _ _ _ _ _ _ _ Hrow).
      destruct (IH (if invalid_phone row then invalid ++ [invalid_line row]
                    else invalid) self1 w1)
        as (self' & w' & Hrun & Hlong & Hout' & Hfiles').
      exists self', w'. rewrite Hrun, Hlong.
      assert (Hl : (if invalid_phone row then invalid ++ [invalid_line row]
                    else invalid)
                   ++ map invalid_line
                        (filter invalid_phone (filter has_three_fields rows))
                   = invalid
                     ++ map invalid_line
                          (filter invalid_phone
                             (row :: filter has_three_fields rows))).
      { simpl. destruct (invalid_phone row); simpl; [| reflexivity].
        now rewrite <- app_assoc. }
      rewrite Hl. repeat split; congruence.
    + rewrite (for_fold_cons _ _ _ _ _ _ _ _ _
                 (import_row_short row invalid self w E)).
      apply IH.
Qed.

Lemma import_report_run (csv_file : string) (invalid : list string)
  (self : PhoneBook) (w : world) :
  import_report csv_file invalid self w
  = (Return tt, self, printed w (report_lines csv_file invalid)).
Proof.
  destruct invalid as [| x invalid]; [reflexivity |].
  unfold import_report, report_lines, bind. rewrite print_run.
  rewrite (for_each_print Line). unfold printed. simpl.
  now rewrite <- app_assoc.
Qed.



(** ** Batch delete *)

(** C2 fails on the code.  When the source of a batch delete exists and is
    empty, [next(reader)] raises [StopIteration]; the handler is for
    [FileNotFoundError] only, and the exception leaves [batch_delete]. *)
Theorem batch_delete_empty_file_raises
  (csv_file : string) (self : PhoneBook) (w : world) :
  files w csv_file = Some EmptyString ->
  batch_delete csv_file self w = (Raise StopIteration, self, w).
Proof.
  intros H. unfold batch_delete, try_except, bind, open_read. rewrite H.
  reflexivity.
Qed.

Lemma batch_delete_empty_file_raises_witness :
  files (with_file sample_world "names.csv" EmptyString) "names.csv"
  = Some EmptyString /\
  batch_delete "names.csv" (mkPhoneBook [john_doe] "contacts.csv")
    (with_file sample_world "names.csv" EmptyString)
  = (Raise StopIteration, mkPhoneBook [john_doe] "contacts.csv",
     with_file sample_world "names.csv" EmptyString).
Proof.
  split; [reflexivity |].
  apply (batch_delete_empty_file_raises "names.csv"
           (mkPhoneBook [john_doe] "contacts.csv")
           (with_file sample_world "names.csv" EmptyString)).
  reflexivity.
Defined.

(** The sibling operation returns normally on the same file. *)
Example batch_import_empty_file :
  batch_import "names.csv" (mkPhoneBook [john_doe] "contacts.csv")
    (with_file sample_world "names.csv" EmptyString)
  = (Return tt, mkPhoneBook [john_doe] "contacts.csv",
     printed (with_file sample_world "names.csv" EmptyString)
       [BatchImportCompleted "names.csv"]).
Proof. reflexivity. Qed.

(** ** Writing and reading back the persistence file *)

Lemma splitlines_plain (translate : bool) (cur : string) (c : ascii)
  (rest : string) :
  Csv.is_newline c = false ->
  File.splitlines translate cur (String c rest)
  = File.splitlines translate (cur +++ String c EmptyString) rest.
Proof.
  unfold Csv.is_newline. intros H. apply orb_false_iff in H as [H1 H2].
  simpl. now rewrite H1, H2.
Qed.

Lemma splitlines_lf (translate : bool) (cur rest : string) :
  File.splitlines translate cur (String File.LF rest)
  = (cur +++ String File.LF EmptyString)
    :: File.splitlines translate EmptyString rest.
Proof. reflexivity. Qed.

Lemma splitlines_crlf (cur rest : string) :
  File.splitlines true cur (String File.CR (String File.LF rest))
  = (cur +++ String File.LF EmptyString)
    :: File.splitlines true EmptyString rest.
Proof. reflexivity. Qed.

Lemma splitlines_cr (cur : string) (c : ascii) (rest : string) :
  File.is_lf c = false ->
  File.splitlines true cur (String File.CR (String c rest))
  = (cur +++ String File.LF EmptyString)
    :: File.splitlines true EmptyString (String c rest).
Proof.
  intros H. cbn [File.splitlines].
  change (File.is_lf File.CR) with false. change (File.is_cr File.CR) with true.
  cbv iota. now rewrite H.
Qed.

Lemma read_line_continue (p p' : Csv.parser) (l : string) (ls : list string) :
  Csv.feed_line p l = Some p' ->
  Csv.state_eqb (Csv.state p') Csv.START_RECORD = false ->
  Csv.read p (l :: ls) = Csv.read p' ls.
Proof. intros H1 H2. simpl. now rewrite H1, H2. Qed.

Lemma read_line_record (p p' : Csv.parser) (l : string) (ls : list string) :
  Csv.feed_line p l = Some p' ->
  Csv.state p' = Csv.START_RECORD ->
  Csv.read p (l :: ls)
  = Csv.cons_record (Csv.fields p') (Csv.read Csv.parse_reset ls).
Proof. intros H1 H2. simpl. now rewrite H1, H2. Qed.

(** A character that is no line end joins the current line. *)
Lemma resume_char (p q q' : Csv.parser) (cur : string) (c : ascii)
  (rest : string) :
  Csv.is_newline c = false ->
  Csv.feed p cur = Some q ->
  Csv.parse_process_char q (Some c) = Some q' ->
  resume p cur (String c rest) = resume p (cur +++ String c EmptyString) rest /\
  Csv.feed p (cur +++ String c EmptyString) = Some q'.
Proof.
  intros Hc Hq Hq'. unfold resume. rewrite splitlines_plain by assumption.
  split; [reflexivity |]. rewrite feed_append, Hq. simpl. now rewrite Hq'.
Qed.

(** Inside quotes a line end is read as LF and the record goes on with the
    next line. *)
Lemma feed_line_in_quotes (p q : Csv.parser) (cur : string) :
  Csv.feed p cur = Some q ->
  Csv.state q = Csv.IN_QUOTED_FIELD ->
  Csv.feed_line p (cur +++ String File.LF EmptyString)
  = Some (Csv.parse_add_char q File.LF).
Proof.
  intros Hq Hs. unfold Csv.feed_line. rewrite feed_append, Hq.
  destruct q as [st fld fs]. simpl in Hs. subst st. reflexivity.
Qed.

Lemma resume_line_end_in_quotes (p q : Csv.parser) (cur ls : string)
  (rest : string) :
  Csv.feed p cur = Some q ->
  Csv.state q = Csv.IN_QUOTED_FIELD ->
  File.splitlines true cur ls
  = (cur +++ String File.LF EmptyString)
    :: File.splitlines true EmptyString rest ->
  resume p cur ls = resume (Csv.parse_add_char q File.LF) EmptyString rest.
Proof.
  intros Hq Hs Hl. unfold resume. rewrite Hl.
  apply read_line_continue.
  - now apply feed_line_in_quotes.
  - simpl. now rewrite Hs.
Qed.

Lemma universal_newlines_cons (c : ascii) (s : string) :
  File.is_cr c = false ->
  universal_newlines (String c s) = String c (universal_newlines s).
Proof. intros H. simpl. now rewrite H. Qed.

Lemma is_cr_eq (c : ascii) : File.is_cr c = true -> c = File.CR.
Proof. apply Ascii.eqb_eq. Qed.

Lemma is_lf_eq (c : ascii) : File.is_lf c = true -> c = File.LF.
Proof. apply Ascii.eqb_eq. Qed.

Lemma join_append_data_head (c : ascii) (f : string) :
  exists t : string, Csv.join_append_data (String c f) = String c t.
Proof. simpl. destruct (Ascii.eqb c Csv.quotechar); eexists; reflexivity. Qed.

(** The text of a field between its quotes is read back with its line ends
    as LF and its doubled quotes as one. *)
Lemma resume_quoted_data (f : string) :
  forall (p : Csv.parser) (cur : string) (q : Csv.parser) (rest : string),
    Csv.feed p cur = Some q ->
    Csv.state q = Csv.IN_QUOTED_FIELD ->
    exists (p' : Csv.parser) (cur' : string),
      resume p cur (Csv.join_append_data f +++ String Csv.quotechar rest)
      = resume p' cur' (String Csv.quotechar rest) /\
      Csv.feed p' cur'
      = Some (Csv.mkparser Csv.IN_QUOTED_FIELD
                (Csv.field q +++ universal_newlines f) (Csv.fields q)).
Proof.
  remember (String.length f) as n eqn:Hn. revert f Hn.
  induction n as [n IH] using lt_wf_ind.
  intros f Hn p cur q rest Hq Hs.
  destruct q as [st fld fs]. simpl in Hs. subst st.
  set (q1 := Csv.mkparser Csv.IN_QUOTED_FIELD
               (fld +++ String File.LF EmptyString) fs).
  assert (Hq1 : Csv.feed q1 EmptyString = Some q1) by reflexivity.
  assert (Hline : forall text rest',
             File.splitlines true cur text
             = (cur +++ String File.LF EmptyString)
               :: File.splitlines true EmptyString rest' ->
             resume p cur text = resume q1 EmptyString rest').
  { intros text rest' H.
    apply (resume_line_end_in_quotes p _ cur text rest' Hq eq_refl H). }
  destruct f as [| c f'].
  - exists p, cur. simpl. rewrite append_empty_r. now split.
  - simpl in Hn.
    destruct (File.is_cr c) eqn:Ecr; [| destruct (File.is_lf c) eqn:Elf].
    + (* a carriage return *)
      apply is_cr_eq in Ecr. subst c.
      change (Csv.join_append_data (String File.CR f'))
        with (String File.CR (Csv.join_append_data f')).
      destruct f' as [| c' f''].
      * exists q1, EmptyString. split; [| reflexivity].
        apply Hline, splitlines_cr. reflexivity.
      * destruct (File.is_lf c') eqn:Elf.
        -- apply is_lf_eq in Elf. subst c'.
           destruct (IH (String.length f'')) with (f := f'') (p := q1)
             (cur := EmptyString) (q := q1) (rest := rest)
             as (p' & cur' & Hres & Hfeed);
             [simpl in Hn; lia | reflexivity | assumption | reflexivity |].
           exists p', cur'. split.
           ++ rewrite <- Hres. apply Hline. apply splitlines_crlf.
           ++ rewrite Hfeed. simpl. now rewrite append_assoc.
        -- destruct (IH (String.length (String c' f''))) with
             (f := String c' f'') (p := q1) (cur := EmptyString) (q := q1)
             (rest := rest) as (p' & cur' & Hres & Hfeed);
             [simpl in *; lia | reflexivity | assumption | reflexivity |].
           exists p', cur'. split.
           ++ rewrite <- Hres.
              destruct (join_append_data_head c' f'') as [t Ht].
              rewrite Ht. apply Hline. simpl. apply splitlines_cr, Elf.
           ++ rewrite Hfeed. cbn [Csv.field Csv.fields q1].
              rewrite append_assoc.
              change (universal_newlines (String File.CR (String c' f'')))
                with (if File.is_lf c'
                      then String File.LF (universal_newlines f'')
                      else String File.LF
                             (universal_newlines (String c' f''))).
              now rewrite Elf.
    + (* a line feed *)
      apply is_lf_eq in Elf. subst c.
      destruct (IH (String.length f')) with (f := f') (p := q1)
        (cur := EmptyString) (q := q1) (rest := rest)
        as (p' & cur' & Hres & Hfeed);
        [lia | reflexivity | assumption | reflexivity |].
      exists p', cur'. split.
      * rewrite <- Hres. apply Hline. apply splitlines_lf.
      * rewrite Hfeed. simpl. now rewrite append_assoc.
    + (* any other character *)
      assert (Hnl : Csv.is_newline c = false).
      { unfold Csv.is_newline. now rewrite Elf, Ecr. }
      rewrite (universal_newlines_cons _ _ Ecr).
      destruct (Ascii.eqb c Csv.quotechar) eqn:Equote.
      * simpl. rewrite Equote.
        set (q2 := Csv.mkparser Csv.QUOTE_IN_QUOTED_FIELD fld fs).
        set (q3 := Csv.mkparser Csv.IN_QUOTED_FIELD
                     (fld +++ String c EmptyString) fs).
        destruct (resume_char p _ q2 cur c
                    (String c (Csv.join_append_data f'
                               +++ String Csv.quotechar rest)) Hnl Hq)
          as [Hr1 Hf1].
        { unfold Csv.parse_process_char. simpl. now rewrite Equote. }
        destruct (resume_char p q2 q3 (cur +++ String c EmptyString) c
                    (Csv.join_append_data f' +++ String Csv.quotechar rest)
                    Hnl Hf1) as [Hr2 Hf2].
        { unfold Csv.parse_process_char. simpl. now rewrite Equote. }
        destruct (IH (String.length f')) with (f := f') (p := p)
          (cur := (cur +++ String c EmptyString) +++ String c EmptyString)
          (q := q3) (rest := rest) as (p' & cur' & Hres & Hfeed);
          [lia | reflexivity | assumption | reflexivity |].
        exists p', cur'. split; [cbn [String.append]; now rewrite Hr1, Hr2 |].
        rewrite Hfeed. simpl. now rewrite append_assoc.
      * simpl. rewrite Equote.
        set (q3 := Csv.mkparser Csv.IN_QUOTED_FIELD
                     (fld +++ String c EmptyString) fs).
        destruct (resume_char p _ q3 cur c
                    (Csv.join_append_data f' +++ String Csv.quotechar rest)
                    Hnl Hq) as [Hr1 Hf1].
        { unfold Csv.parse_process_char. simpl. now rewrite Equote. }
        destruct (IH (String.length f')) with (f := f') (p := p)
          (cur := cur +++ String c EmptyString)
          (q := q3) (rest := rest) as (p' & cur' & Hres & Hfeed);
          [lia | reflexivity | assumption | reflexivity |].
        exists p', cur'. split; [cbn [String.append]; now rewrite Hr1 |].
        rewrite Hfeed. simpl. now rewrite append_assoc.
Qed.

Lemma needs_quotes_false (c : ascii) :
  Csv.needs_quotes c = false ->
  Ascii.eqb c Csv.delimiter = false /\ Ascii.eqb c Csv.quotechar = false /\
  Csv.is_newline c = false.
Proof.
  unfold Csv.needs_quotes. intros H.
  apply orb_false_iff in H as [H H3]. apply orb_false_iff in H as [H1 H2].
  auto.
Qed.

Lemma is_newline_false_cr (c : ascii) :
  Csv.is_newline c = false -> File.is_cr c = false.
Proof. unfold Csv.is_newline. intros H. now apply orb_false_iff in H. Qed.

(** A field that needs no quotes is written as it is and has no line end. *)
Lemma not_quoted (f : string) :
  Csv.quoted f = false ->
  all_chars plain f /\ Csv.join_append_data f = f /\ universal_newlines f = f.
Proof.
  induction f as [| c f IH]; simpl; [auto |].
  intros H. apply orb_false_iff in H as [Hc Hf].
  destruct (IH Hf) as (Hp & Hd & Hu).
  destruct (needs_quotes_false c Hc) as (_ & Hq & Hn).
  rewrite Hq, Hd, (is_newline_false_cr c Hn), Hu. auto.
Qed.

(** Plain characters after the start of an unquoted field join it. *)
Lemma resume_plain (f : string) :
  forall (p : Csv.parser) (cur : string) (q : Csv.parser) (rest : string),
    Csv.feed p cur = Some q ->
    Csv.state q = Csv.IN_FIELD ->
    all_chars plain f ->
    resume p cur (f +++ rest) = resume p (cur +++ f) rest /\
    Csv.feed p (cur +++ f)
    = Some (Csv.mkparser Csv.IN_FIELD (Csv.field q +++ f) (Csv.fields q)).
Proof.
  induction f as [| c f IH]; intros p cur q rest Hq Hs Hf.
  - simpl. rewrite !append_empty_r. split; [reflexivity |].
    destruct q; simpl in *; now subst.
  - destruct Hf as [Hc Hf].
    destruct (needs_quotes_false c Hc) as (Hd & _ & Hn).
    destruct q as [st fld fs]. simpl in Hs. subst st.
    destruct (resume_char p _
                (Csv.mkparser Csv.IN_FIELD (fld +++ String c EmptyString) fs)
                cur c (f +++ rest) Hn Hq) as [Hr1 Hf1].
    { unfold Csv.parse_process_char. simpl. now rewrite Hn, Hd. }
    destruct (IH p (cur +++ String c EmptyString) _ rest Hf1 eq_refl Hf)
      as [Hr2 Hf2].
    rewrite append_assoc in Hr2, Hf2. simpl in Hr2, Hf2.
    cbn [String.append]. rewrite Hr1, Hr2, Hf2. simpl.
    now rewrite append_assoc.
Qed.

Lemma fresh_char (q : Csv.parser) (c : ascii) :
  fresh q -> Csv.is_newline c = false ->
  Csv.parse_process_char q (Some c)
  = Some (if Ascii.eqb c Csv.quotechar
          then Csv.mkparser Csv.IN_QUOTED_FIELD EmptyString (Csv.fields q)
          else if Ascii.eqb c Csv.delimiter
          then Csv.mkparser Csv.START_FIELD EmptyString
                 (Csv.fields q ++ [EmptyString])
          else Csv.mkparser Csv.IN_FIELD (String c EmptyString)
                 (Csv.fields q)).
Proof.
  intros [[Hs | Hs] Hf] Hc; destruct q as [st fld fs]; simpl in *; subst;
    unfold Csv.parse_process_char; simpl; rewrite Hc;
    destruct (Ascii.eqb c Csv.quotechar); [reflexivity | | reflexivity |];
    destruct (Ascii.eqb c Csv.delimiter); reflexivity.
Qed.

(** A field and the delimiter after it: the field is read back and the
    parser is at the start of the next field. *)
Lemma resume_field (f : string) (p : Csv.parser) (cur : string)
  (q : Csv.parser) (rest : string) :
  Csv.feed p cur = Some q ->
  fresh q ->
  exists (p' : Csv.parser) (cur' : string),
    resume p cur (Csv.join_append f +++ String Csv.delimiter rest)
    = resume p' cur' rest /\
    Csv.feed p' cur'
    = Some (Csv.mkparser Csv.START_FIELD EmptyString
              (Csv.fields q ++ [universal_newlines f])).
Proof.
  intros Hq Hfresh. unfold Csv.join_append.
  destruct (Csv.quoted f) eqn:Equoted.
  - (* between quotes *)
    cbn [String.append]. rewrite append_assoc. cbn [String.append].
    destruct (resume_char p q _ cur Csv.quotechar
                (Csv.join_append_data f
                 +++ String Csv.quotechar (String Csv.delimiter rest))
                eq_refl Hq (fresh_char q Csv.quotechar Hfresh eq_refl))
      as [Hr1 Hf1].
    simpl in Hf1.
    destruct (resume_quoted_data f p _ _ (String Csv.delimiter rest) Hf1
                eq_refl) as (p2 & cur2 & Hr2 & Hf2).
    simpl in Hf2.
    destruct (resume_char p2 _
                (Csv.mkparser Csv.QUOTE_IN_QUOTED_FIELD
                   (universal_newlines f) (Csv.fields q))
                cur2 Csv.quotechar (String Csv.delimiter rest)
                eq_refl Hf2 eq_refl) as [Hr3 Hf3].
    destruct (resume_char p2 _
                (Csv.mkparser Csv.START_FIELD EmptyString
                   (Csv.fields q ++ [universal_newlines f]))
                (cur2 +++ String Csv.quotechar EmptyString)
                Csv.delimiter rest eq_refl Hf3 eq_refl) as [Hr4 Hf4].
    eexists _, _. split; [| exact Hf4].
    now rewrite Hr1, Hr2, Hr3, Hr4.
  - (* as it is *)
    destruct (not_quoted f Equoted) as (Hplain & -> & ->).
    destruct f as [| c f].
    + destruct (resume_char p q _ cur Csv.delimiter rest eq_refl Hq
                  (fresh_char q Csv.delimiter Hfresh eq_refl)) as [Hr1 Hf1].
      simpl in Hf1. eexists _, _. split; [| exact Hf1]. exact Hr1.
    + destruct Hplain as [Hc Hplain].
      destruct (needs_quotes_false c Hc) as (Hd & Hqc & Hn).
      destruct (resume_char p q _ cur c (f +++ String Csv.delimiter rest)
                  Hn Hq (fresh_char q c Hfresh Hn)) as [Hr1 Hf1].
      rewrite Hqc, Hd in Hf1.
      destruct (resume_plain f p _ _ (String Csv.delimiter rest) Hf1 eq_refl
                  Hplain) as [Hr2 Hf2].
      simpl in Hf2.
      destruct (resume_char p _
                  (Csv.mkparser Csv.START_FIELD EmptyString
                     (Csv.fields q ++ [String c f]))
                  ((cur +++ String c EmptyString) +++ f)
                  Csv.delimiter rest eq_refl Hf2 eq_refl) as [Hr3 Hf3].
      eexists _, _. split; [| exact Hf3].
      cbn [String.append]. now rewrite Hr1, Hr2, Hr3.
Qed.

(** The end of a record, after a field. *)
Lemma resume_record_end (p : Csv.parser) (cur : string) (q : Csv.parser)
  (rest : string) :
  Csv.feed p cur = Some q ->
  Csv.state q = Csv.START_FIELD \/ Csv.state q = Csv.IN_FIELD \/
  Csv.state q = Csv.QUOTE_IN_QUOTED_FIELD ->
  resume p cur (Csv.lineterminator +++ rest)
  = Csv.cons_record (Csv.fields q ++ [Csv.field q])
      (resume Csv.parse_reset EmptyString rest).
Proof.
  intros Hq Hs. unfold resume.
  change (Csv.lineterminator +++ rest)
    with (String File.CR (String File.LF rest)).
  rewrite splitlines_crlf.
  apply (read_line_record p
           (Csv.mkparser Csv.START_RECORD EmptyString
              (Csv.fields q ++ [Csv.field q]))); [| reflexivity].
  unfold Csv.feed_line. rewrite feed_append, Hq.
  destruct q as [st fld fs]. simpl in Hs.
  destruct Hs as [-> | [-> | ->]]; reflexivity.
Qed.

(** The last field of a record and the line terminator. *)
Lemma resume_last_field (f : string) (p : Csv.parser) (cur : string)
  (q : Csv.parser) (rest : string) :
  Csv.feed p cur = Some q ->
  fresh q ->
  Csv.state q = Csv.START_FIELD \/ Csv.join_append f <> EmptyString ->
  resume p cur (Csv.join_append f +++ Csv.lineterminator +++ rest)
  = Csv.cons_record (Csv.fields q ++ [universal_newlines f])
      (resume Csv.parse_reset EmptyString rest).
Proof.
  intros Hq Hfresh Hstart. unfold Csv.join_append in *.
  destruct (Csv.quoted f) eqn:Equoted.
  - cbn [String.append]. rewrite append_assoc. cbn [String.append].
    destruct (resume_char p q _ cur Csv.quotechar
                (Csv.join_append_data f
                 +++ String Csv.quotechar (Csv.lineterminator +++ rest))
                eq_refl Hq (fresh_char q Csv.quotechar Hfresh eq_refl))
      as [Hr1 Hf1].
    simpl in Hf1.
    destruct (resume_quoted_data f p _ _ (Csv.lineterminator +++ rest) Hf1
                eq_refl) as (p2 & cur2 & Hr2 & Hf2).
    simpl in Hf2.
    destruct (resume_char p2 _
                (Csv.mkparser Csv.QUOTE_IN_QUOTED_FIELD
                   (universal_newlines f) (Csv.fields q))
                cur2 Csv.quotechar (Csv.lineterminator +++ rest)
                eq_refl Hf2 eq_refl) as [Hr3 Hf3].
    rewrite Hr1, Hr2, Hr3.
    now rewrite (resume_record_end _ _ _ rest Hf3) by auto.
  - destruct (not_quoted f Equoted) as (Hplain & Hdata & ->).
    rewrite Hdata in *.
    destruct f as [| c f].
    + destruct Hstart as [Hs | Hne]; [| contradiction].
      destruct Hfresh as [_ Hfld]. cbn [String.append].
      rewrite (resume_record_end _ _ _ rest Hq) by auto.
      now rewrite Hfld.
    + destruct Hplain as [Hc Hplain].
      destruct (needs_quotes_false c Hc) as (Hd & Hqc & Hn).
      destruct (resume_char p q _ cur c (f +++ Csv.lineterminator +++ rest)
                  Hn Hq (fresh_char q c Hfresh Hn)) as [Hr1 Hf1].
      rewrite Hqc, Hd in Hf1.
      destruct (resume_plain f p _ _ (Csv.lineterminator +++ rest) Hf1
                  eq_refl Hplain) as [Hr2 Hf2].
      simpl in Hf2. cbn [String.append]. rewrite Hr1, Hr2.
      now rewrite (resume_record_end _ _ _ rest Hf2) by auto.
Qed.

Lemma append_not_empty (a : string) (c : ascii) (b : string) :
  a +++ String c b <> EmptyString.
Proof. destruct a; discriminate. Qed.

Lemma join_append_empty (f : string) :
  Csv.join_append f = EmptyString -> f = EmptyString.
Proof.
  unfold Csv.join_append. destruct (Csv.quoted f); [discriminate |].
  destruct f as [| c f]; [reflexivity |]. simpl.
  destruct (Ascii.eqb c Csv.quotechar); discriminate.
Qed.

(** The fields of a record, the line terminator after the last. *)
Lemma resume_cells (cells : list string) :
  cells <> [] ->
  forall (p : Csv.parser) (cur : string) (q : Csv.parser) (rest : string),
    Csv.feed p cur = Some q ->
    fresh q ->
    Csv.state q = Csv.START_FIELD \/
    Text.join (String Csv.delimiter EmptyString) (map Csv.join_append cells)
    <> EmptyString ->
    resume p cur
      (Text.join (String Csv.delimiter EmptyString)
         (map Csv.join_append cells)
       +++ Csv.lineterminator +++ rest)
    = Csv.cons_record (Csv.fields q ++ map universal_newlines cells)
        (resume Csv.parse_reset EmptyString rest).
Proof.
  induction cells as [| f cells IH]; [congruence |].
  intros _ p cur q rest Hq Hfresh Hstart.
  destruct cells as [| g cells].
  - apply resume_last_field; assumption.
  - change (Text.join (String Csv.delimiter EmptyString)
              (map Csv.join_append (f :: g :: cells)))
      with (Csv.join_append f +++ String Csv.delimiter EmptyString
            +++ Text.join (String Csv.delimiter EmptyString)
                  (map Csv.join_append (g :: cells))).
    rewrite !append_assoc. cbn [String.append].
    destruct (resume_field f p cur q
                (Text.join (String Csv.delimiter EmptyString)
                   (map Csv.join_append (g :: cells))
                 +++ Csv.lineterminator +++ rest) Hq Hfresh)
      as (p' & cur' & Hr & Hf).
    rewrite Hr.
    rewrite (IH ltac:(discriminate) p' cur' _ rest Hf); cbn [Csv.fields].
    + now rewrite <- app_assoc.
    + split; [now left | reflexivity].
    + now left.
Qed.

Lemma is_empty_true (s : string) : Text.is_empty s = true -> s = EmptyString.
Proof. destruct s; [reflexivity | discriminate]. Qed.

Lemma is_empty_false (s : string) : Text.is_empty s = false -> s <> EmptyString.
Proof. destruct s; [discriminate | discriminate]. Qed.

(** A record as [writerow] writes it is read back as one record, the cells
    as [read_cell] gives them. *)
Lemma resume_writerow (row : list (option string)) (rest : string) :
  row <> [] ->
  resume Csv.parse_reset EmptyString (Csv.writerow row +++ rest)
  = Csv.cons_record (map read_cell row)
      (resume Csv.parse_reset EmptyString rest).
Proof.
  intros Hrow. unfold Csv.writerow.
  rewrite <- (map_map Csv.cell Csv.join_append).
  change (map read_cell row)
    with (map (fun o => universal_newlines (Csv.cell o)) row).
  rewrite <- (map_map Csv.cell universal_newlines).
  assert (Hcells : map Csv.cell row <> [])
    by (destruct row; [congruence | discriminate]).
  destruct (Text.is_empty
              (Text.join (String Csv.delimiter EmptyString)
                 (map Csv.join_append (map Csv.cell row)))) eqn:E.
  - apply is_empty_true in E.
    destruct row as [| o [| o' row]]; [congruence | |].
    + simpl in E. apply join_append_empty in E. simpl. rewrite E.
      reflexivity.
    + exfalso. revert E. cbn [map Text.join].
      generalize (Csv.join_append (Csv.cell o)). intros a E.
      now apply append_not_empty in E.
  - apply is_empty_false in E. cbn [andb]. rewrite append_assoc.
    rewrite (resume_cells _ Hcells Csv.parse_reset EmptyString
               Csv.parse_reset rest eq_refl);
      [reflexivity | split; [now right | reflexivity] | now right].
Qed.

Lemma concat_cons (x : string) (l : list string) :
  String.concat EmptyString (x :: l) = x +++ String.concat EmptyString l.
Proof. destruct l; simpl; [now rewrite append_empty_r | reflexivity]. Qed.

(** The round trip of the text layer: what the writer writes, the reader
    reads back record by record. *)
Lemma reader_writerows (rows : list (list (option string))) :
  Forall (fun row => row <> []) rows ->
  Csv.reader
    (File.lines true (String.concat EmptyString (map Csv.writerow rows)))
  = Csv.mkrows (map (map read_cell) rows) false.
Proof.
  change (Csv.reader (File.lines true ?t))
    with (resume Csv.parse_reset EmptyString t).
  induction 1 as [| row rows Hrow Hrows IH]; [reflexivity |].
  cbn [map]. rewrite concat_cons, (resume_writerow _ _ Hrow), IH.
  reflexivity.
Qed.

(** ** Saving and loading *)

Lemma no_cr_universal_newlines (s : string) :
  no_cr s -> universal_newlines s = s.
Proof.
  induction s as [| c s IH]; [reflexivity |]. intros [Hc Hs].
  rewrite universal_newlines_cons by assumption. now rewrite IH.
Qed.

Lemma universal_newlines_no_lf (s : string) :
  all_chars (fun c => File.is_lf c = false) (universal_newlines s) ->
  universal_newlines s = s.
Proof.
  induction s as [| c s IH]; [reflexivity |].
  destruct (File.is_cr c) eqn:Ecr.
  - simpl. rewrite Ecr.
    destruct s as [| c' s']; [intros [H _]; discriminate H |].
    destruct (File.is_lf c'); intros [H _]; discriminate H.
  - rewrite universal_newlines_cons by assumption.
    intros [_ H]. now rewrite IH.
Qed.

Lemma digit_not_newline (c : ascii) :
  Text.is_digit c = true -> Csv.is_newline c = false.
Proof.
  intros H. destruct (Csv.is_newline c) eqn:E; [| reflexivity].
  destruct (is_newline_cases c E); subst; discriminate H.
Qed.

Lemma valid_phone_no_newline (s : string) :
  validate_phone_number s = true -> no_newline s.
Proof.
  intros H. apply validate_phone_number_sound in H.
  destruct H as (area & exchange & line & Ha & He & Hl & ->).
  apply digits_inv3 in Ha as (a1 & a2 & a3 & -> & Ha1 & Ha2 & Ha3).
  apply digits_inv3 in He as (e1 & e2 & e3 & -> & He1 & He2 & He3).
  apply digits_inv4 in Hl as (l1 & l2 & l3 & l4 & -> & Hl1 & Hl2 & Hl3 & Hl4).
  unfold no_newline. simpl.
  repeat split; try reflexivity; now apply digit_not_newline.
Qed.

Lemma no_newline_no_cr (s : string) : no_newline s -> no_cr s.
Proof.
  induction s as [| c s IH]; [trivial |]. intros [Hc Hs].
  split; [now apply is_newline_false_cr | now apply IH].
Qed.

Lemma no_newline_no_lf (s : string) :
  no_newline s -> all_chars (fun c => File.is_lf c = false) s.
Proof.
  induction s as [| c s IH]; [trivial |]. intros [Hc Hs].
  split; [| now apply IH].
  unfold Csv.is_newline in Hc. now apply orb_false_iff in Hc.
Qed.

Lemma valid_phone_universal_newlines (s : string) :
  validate_phone_number s = true -> universal_newlines s = s.
Proof.
  intros H. now apply no_cr_universal_newlines, no_newline_no_cr,
              valid_phone_no_newline.
Qed.

(** A phone number is valid when read back exactly when it was valid when
    written. *)
Lemma validate_universal_newlines (s : string) :
  validate_phone_number (universal_newlines s) = validate_phone_number s.
Proof.
  destruct (validate_phone_number s) eqn:E.
  - now rewrite (valid_phone_universal_newlines s E).
  - destruct (validate_phone_number (universal_newlines s)) eqn:E';
      [| reflexivity].
    pose proof E' as Hs.
    apply valid_phone_no_newline, no_newline_no_lf,
      universal_newlines_no_lf in Hs.
    rewrite Hs in E'. congruence.
Qed.

Lemma save_to_file_run (self : PhoneBook) (w : world) :
  save_to_file self w
  = (Return tt, self,
     with_file w (filename self)
       (String.concat EmptyString
          (map (fun contact => Csv.writerow (contact_row contact))
             (contacts self)))).
Proof. reflexivity. Qed.

Lemma load_row_reloaded (c : Contact) (self : PhoneBook) (w : world) :
  exists c' : Contact,
    (valid_contact c = true -> read_back c c') /\
    load_row (reloaded_row c) tt self w
    = add_contact c' self (ticked 2 w) /\
    validate_phone_number (phone_number c') = valid_contact c.
Proof.
  exists (mkContact (universal_newlines (first_name c))
            (universal_newlines (last_name c))
            (universal_newlines (phone_number c))
            (Some (read_cell (email c))) (Some (read_cell (address c)))
            (clock w (ticks w)) (clock w (S (ticks w)))).
  unfold valid_contact. simpl. rewrite validate_universal_newlines.
  split; [| split; reflexivity].
  intros Hv. unfold read_back. simpl.
  rewrite (valid_phone_universal_newlines _ Hv). repeat split.
Qed.

Lemma load_loop (cs : list Contact) :
  forall (self : PhoneBook) (w : world),
  exists (self' : PhoneBook) (w' : world) (l : list Contact),
    for_fold (map reloaded_row cs) tt load_row self w = (Return tt, self', w') /\
    filename self' = filename self /\
    Forall2 read_back (filter valid_contact cs) l /\
    Permutation (contacts self') (contacts self ++ l).
Proof.
  induction cs as [| c cs IH]; intros self w.
  - exists self, w, []. simpl. rewrite app_nil_r.
    repeat split; [constructor | reflexivity].
  - destruct (load_row_reloaded c self w) as (c' & Hback & Hrow & Hvalid).
    cbn [map filter]. destruct (valid_contact c) eqn:Hv.
    + rewrite (add_contact_valid _ _ _ Hvalid) in Hrow.
      rewrite (for_fold_cons _ _ _ _ _ _ _ _ _ Hrow).
      match goal with
      | |- context [for_fold _ tt load_row ?s ?w1] =>
          destruct (IH s w1) as (self' & w' & l & Hrun & Hname & Hl & Hperm)
      end.
      exists self', w', (c' :: l). simpl in Hname, Hperm.
      repeat split; [exact Hrun | exact Hname | constructor; auto |].
      rewrite Hperm, sorted_perm, <- app_assoc. reflexivity.
    + rewrite (add_contact_invalid _ _ _ Hvalid) in Hrow.
      rewrite (for_fold_cons _ _ _ _ _ _ _ _ _ Hrow).
      match goal with
      | |- context [for_fold _ tt load_row ?s ?w1] =>
          destruct (IH s w1) as (self' & w' & l & Hrun & Hname & Hl & Hperm)
      end.
      exists self', w', l. auto.
Qed.

Lemma Forall2_In_l {A B : Type} (R : A -> B -> Prop) (l : list A)
  (l' : list B) (x : A) :
  Forall2 R l l' -> In x l -> exists y : B, In y l' /\ R x y.
Proof.
  induction 1 as [| a b l l' Hab _ IH]; intros Hin; [contradiction |].
  destruct Hin as [-> | Hin].
  - exists b. split; [now left | assumption].
  - destruct (IH Hin) as (y & Hy & HR). exists y. split; [now right | assumption].
Qed.

Lemma load_from_file_run (fn text : string) (w : world) :
  load_from_file (mkPhoneBook [] fn) (with_file w fn text)
  = match
      for_rows (Csv.reader (File.lines true text)) tt load_row
        (mkPhoneBook [] fn) (with_file w fn text)
    with
    | (Raise FileNotFoundError, self, w') =>
        print (StartingEmpty fn) self w'
    | r => r
    end.
Proof.
  unfold load_from_file, bind at 1, get. cbv beta iota.
  unfold try_except, bind at 1, open_read. cbn [files with_file filename].
  rewrite String.eqb_refl.
  destruct (for_rows _ _ _ _ _) as [[[a | e] s] w']; [reflexivity |].
  destruct e; reflexivity.
Qed.



(** An absent e-mail is loaded as the empty string. *)
Example save_then_load_absent_email :
  map email (contacts (fst john_store)) = [None] /\
  map email (contacts (fst (save_then_load john_store))) = [Some EmptyString].
Proof. split; reflexivity. Qed.

(** A carriage return in a name is loaded as a line feed. *)
Example universal_newlines_name :
  universal_newlines ("Ann" +++ String File.CR "Lee")
  = "Ann" +++ String File.LF "Lee".
Proof. reflexivity. Qed.

(** * Further properties *)

(** ** Sorting *)

Section StableFacts.
Context {A : Type} (key : A -> string).

Let le (a b : A) : Prop := String.leb (key a) (key b) = true.

Lemma ltb_not_eq (a b : string) : String.ltb a b = true -> a <> b.
Proof.
  unfold String.ltb. intros H ->. now rewrite string_compare_refl in H.
Qed.

Lemma with_key_above (x : A) (l : list A) :
  Forall (fun y => String.ltb (key x) (key y) = true) l ->
  with_key key (key x) l = [].
Proof.
  induction 1 as [| y l Hy _ IH]; [reflexivity |].
  unfold with_key in *. simpl. rewrite IH.
  destruct (String.eqb_spec (key y) (key x)) as [E | E]; [| reflexivity].
  apply ltb_not_eq in Hy. congruence.
Qed.

Lemma ltb_leb_trans (a b c : string) :
  String.ltb a b = true -> String.leb b c = true -> String.ltb a c = true.
Proof.
  unfold String.ltb, String.leb.
  destruct (String.compare a b) eqn:Hab; try discriminate.
  destruct (String.compare b c) eqn:Hbc; try discriminate; intros _ _.
  - apply String.compare_eq_iff in Hbc. subst. now rewrite Hab.
  - now rewrite (string_lt_trans _ _ _ Hab Hbc).
Qed.

Lemma with_key_cons (k : string) (x : A) (l : list A) :
  with_key key k (x :: l)
  = if String.eqb (key x) k then x :: with_key key k l else with_key key k l.
Proof. reflexivity. Qed.

Lemma insert_sorted_with_key (k : string) (x : A) (l : list A) :
  StronglySorted le l ->
  with_key key k (insert_sorted key x l)
  = with_key key k l ++ with_key key k [x].
Proof.
  induction 1 as [| y l Hs IH Hall]; [reflexivity |].
  cbn [insert_sorted]. destruct (String.ltb (key x) (key y)) eqn:E.
  - rewrite (with_key_cons k x (y :: l)), (with_key_cons k x []).
    destruct (String.eqb_spec (key x) k) as [Ek | Ek].
    + subst k. rewrite with_key_above; [reflexivity |].
      constructor; [assumption |].
      eapply Forall_impl; [| exact Hall]. intros z Hz.
      now apply (ltb_leb_trans _ (key y)).
    + now rewrite app_nil_r.
  - rewrite !(with_key_cons k y).
    destruct (String.eqb (key y) k); rewrite IH; reflexivity.
Qed.

Lemma fold_insert_with_key (k : string) (l acc : list A) :
  StronglySorted le acc ->
  with_key key k (fold_left (fun acc x => insert_sorted key x acc) l acc)
  = with_key key k acc ++ with_key key k l.
Proof.
  revert acc. induction l as [| x l IH]; intros acc Hacc; cbn [fold_left].
  - unfold with_key at 3. simpl. now rewrite app_nil_r.
  - rewrite IH.
    + rewrite insert_sorted_with_key by assumption.
      rewrite <- app_assoc. f_equal.
      rewrite (with_key_cons k x l), (with_key_cons k x []).
      now destruct (String.eqb (key x) k).
    + apply Sorted_StronglySorted; [intros a b c; apply string_leb_trans |].
      apply insert_sorted_Sorted. now apply StronglySorted_Sorted.
Qed.

Lemma sorted_stable (k : string) (l : list A) :
  with_key key k (sorted key l) = with_key key k l.
Proof. apply (fold_insert_with_key k l []). constructor. Qed.
End StableFacts.

Lemma sort_contacts_run (key : string) (self : PhoneBook) (w : world) :
  sort_contacts key self w
  = (Return tt,
     mkPhoneBook
       (if String.eqb key "first_name"
        then sorted (fun c => Text.lower (first_name c)) (contacts self)
        else if String.eqb key "last_name"
        then sorted (fun c => Text.lower (last_name c)) (contacts self)
        else contacts self)
       (filename self),
     w).
Proof.
  unfold sort_contacts, get_contacts. unfold bind, get, ret. cbv beta iota.
  destruct (String.eqb key "first_name"); [reflexivity |].
  destruct (String.eqb key "last_name"); [reflexivity |].
  now destruct self.
Qed.

(** X1.  [sort_contacts] returns normally and keeps the records, the file
    name and the world.  With the key [first_name] the records end in
    nondecreasing order of first name, with the key [last_name] in
    nondecreasing order of last name, case ignored in both; with any other
    key the list is left as it is. *)
Theorem sort_contacts_orders_by_key
  (key : string) (self : PhoneBook) (w : world) :
  exists self' : PhoneBook,
    sort_contacts key self w = (Return tt, self', w) /\
    filename self' = filename self /\
    Permutation (contacts self') (contacts self) /\
    (key = "first_name" -> StronglySorted first_name_le (contacts self')) /\
    (key = "last_name" -> StronglySorted last_name_le (contacts self')) /\
    (key <> "first_name" -> key <> "last_name" ->
     contacts self' = contacts self).
Proof.
  rewrite sort_contacts_run. eexists. split; [reflexivity |].
  cbn [contacts filename]. split; [reflexivity |].
  split; [| split; [| split]].
  - destruct (String.eqb key "first_name"); [apply sorted_perm |].
    destruct (String.eqb key "last_name"); [apply sorted_perm | reflexivity].
  - intros ->. cbn. apply sorted_StronglySorted.
  - intros ->. cbn. apply sorted_StronglySorted.
  - intros H1 H2. apply String.eqb_neq in H1, H2. now rewrite H1, H2.
Qed.

(** X2.  [sort_contacts] is stable: under either key, the records that
    have a given key value (first or last name in lower case) are, after the
    sort, the same records in the same order as before. *)
Theorem sort_contacts_stable
  (key k : string) (self : PhoneBook) (w : world) :
  exists self' : PhoneBook,
    sort_contacts key self w = (Return tt, self', w) /\
    (key = "first_name" ->
     with_key (fun c => Text.lower (first_name c)) k (contacts self')
     = with_key (fun c => Text.lower (first_name c)) k (contacts self)) /\
    (key = "last_name" ->
     with_key (fun c => Text.lower (last_name c)) k (contacts self')
     = with_key (fun c => Text.lower (last_name c)) k (contacts self)).
Proof.
  rewrite sort_contacts_run. eexists. split; [reflexivity |].
  cbn [contacts]. split; intros ->; cbn; apply sorted_stable.
Qed.

(** X3.  Whatever the order of the phone book before, adding a record with
    a valid phone number leaves it in nondecreasing order of last name, case
    ignored, with the records it had and the new one, each as often as
    before; nothing is printed. *)
Theorem add_contact_valid_sorts_all
  (contact : Contact) (self : PhoneBook) (w : world) :
  validate_phone_number (phone_number contact) = true ->
  exists self' : PhoneBook,
    add_contact contact self w = (Return tt, self', w) /\
    filename self' = filename self /\
    StronglySorted last_name_le (contacts self') /\
    Permutation (contacts self') (contact :: contacts self).
Proof.
  intros H. rewrite (add_contact_valid _ _ _ H). eexists.
  split; [reflexivity |]. cbn [contacts filename]. split; [reflexivity |].
  split; [apply sorted_StronglySorted |].
  rewrite sorted_perm. symmetry. apply Permutation_cons_append.
Qed.

Lemma add_contact_valid_sorts_all_witness :
  validate_phone_number (phone_number john_doe) = true /\
  exists self' : PhoneBook,
    add_contact john_doe
      (mkPhoneBook [jane_smith; bad_phone] "contacts.csv") sample_world
    = (Return tt, self', sample_world) /\
    map last_name (contacts self') = ["Adams"; "Doe"; "Smith"].
Proof.
  split; [reflexivity |].
  destruct (add_contact_valid_sorts_all john_doe
              (mkPhoneBook [jane_smith; bad_phone] "contacts.csv")
              sample_world eq_refl) as (self' & Hrun & _).
  exists self'. split; [exact Hrun |].
  vm_compute in Hrun. now injection Hrun as <-.
Defined.

(** ** Removing by name, further *)

Lemma StronglySorted_filter {A : Type} (R : A -> A -> Prop) (p : A -> bool)
  (l : list A) :
  StronglySorted R l -> StronglySorted R (filter p l).
Proof.
  induction 1 as [| x l Hs IH Hall]; simpl; [constructor |].
  destruct (p x); [| assumption].
  constructor; [assumption |].
  apply Forall_forall. intros y Hy. apply filter_In in Hy as [Hy _].
  revert y Hy. now apply Forall_forall.
Qed.

(** X4.  Removing by name keeps the order of the phone book: a list that is
    sorted for some order of records is sorted for it after the removal. *)
Theorem remove_contact_by_name_keeps_sorted
  (R : Contact -> Contact -> Prop) (first last : string)
  (self : PhoneBook) (w : world) :
  StronglySorted R (contacts self) ->
  exists (self' : PhoneBook) (w' : world),
    remove_contact_by_name first last self w = (Return tt, self', w') /\
    StronglySorted R (contacts self').
Proof.
  intros H. rewrite remove_contact_by_name_run. eexists _, _.
  split; [reflexivity |]. now apply StronglySorted_filter.
Qed.

Lemma remove_contact_by_name_keeps_sorted_witness :
  StronglySorted last_name_le (contacts smith_store) /\
  exists (self' : PhoneBook) (w' : world),
    remove_contact_by_name "john" " DOE " smith_store sample_world
    = (Return tt, self', w') /\
    StronglySorted last_name_le (contacts self').
Proof.
  assert (H : StronglySorted last_name_le (contacts smith_store)).
  { repeat constructor. }
  split; [exact H |].
  exact (remove_contact_by_name_keeps_sorted last_name_le "john" " DOE "
           smith_store sample_world H).
Defined.

Lemma filter_length_lt {A : Type} (p : A -> bool) (l : list A) :
  (length (filter p l) <? length l)%nat = existsb (fun x => negb (p x)) l.
Proof.
  induction l as [| x l IH]; [reflexivity |].
  pose proof (filter_length_le p l) as Hle. simpl.
  destruct (p x); simpl.
  - exact IH.
  - apply Nat.ltb_lt. lia.
Qed.

(** X5.  Removing by name prints that the contact was deleted exactly when
    a record has the names (case and surrounding whitespace ignored); when
    none has, nothing is printed and the phone book is unchanged. *)
Theorem remove_contact_by_name_reports
  (first last : string) (self : PhoneBook) (w : world) :
  exists (self' : PhoneBook) (w' : world),
    remove_contact_by_name first last self w = (Return tt, self', w') /\
    ((exists c : Contact, In c (contacts self) /\ same_name first last c) ->
     w' = printed w [ContactDeleted (Text.strip first) (Text.strip last)] /\
     length (contacts self') < length (contacts self)) /\
    ((forall c : Contact, In c (contacts self) -> ~ same_name first last c) ->
     w' = w /\ self' = self).
Proof.
  rewrite remove_contact_by_name_run. eexists _, _. split; [reflexivity |].
  cbn [contacts]. rewrite filter_length_lt. split.
  - intros (c & Hc & Hname).
    assert (E : existsb
                  (fun x => negb (kept (Text.strip first) (Text.strip last) x))
                  (contacts self) = true).
    { apply existsb_exists. exists c. split; [assumption |].
      destruct (kept (Text.strip first) (Text.strip last) c) eqn:K;
        [| reflexivity].
      apply kept_same_name in K. contradiction. }
    split; [now rewrite E |].
    rewrite <- filter_length_lt in E. now apply Nat.ltb_lt.
  - intros Hall.
    assert (E : filter (kept (Text.strip first) (Text.strip last))
                  (contacts self) = contacts self).
    { clear - Hall. induction (contacts self) as [| x l IH]; [reflexivity |].
      simpl. destruct (kept _ _ x) eqn:K.
      - rewrite IH; [reflexivity |]. intros c Hc. apply Hall. now right.
      - exfalso. apply (Hall x); [now left |].
        destruct (kept_same_name first last x) as [_ Hk].
        unfold same_name. unfold kept in K.
        apply orb_false_iff in K as [K1 K2].
        apply negb_false_iff in K1, K2.
        apply String.eqb_eq in K1, K2. now split. }
    rewrite E.
    replace (existsb
               (fun x => negb (kept (Text.strip first) (Text.strip last) x))
               (contacts self)) with false.
    + split; [reflexivity | now destruct self].
    + symmetry. rewrite <- filter_length_lt, E. apply Nat.ltb_irrefl.
Qed.

(** ** Updating by name *)

Lemma update_contact_run (info : contact_info) (c : Contact) (w : world) :
  update_contact (new_first_name info) (new_last_name info)
    (new_phone_number info) (new_email info) (new_address info) c w
  = (Return tt, with_info info (clock w (ticks w)) c, ticked 1 w).
Proof.
  unfold update_contact, bind, get, put, now. cbv beta iota.
  cbn [first_name last_name phone_number email address created_at updated_at].
  rewrite !truthy_updated, !truthy_updated_option. reflexivity.
Qed.

Lemma has_name_eqb (first last : string) (c : Contact) :
  String.eqb (Text.lower (first_name c)) (Text.lower first)
  && String.eqb (Text.lower (last_name c)) (Text.lower last) = true
  <-> has_name first last c.
Proof.
  unfold has_name. now rewrite andb_true_iff, !String.eqb_eq.
Qed.

Lemma update_first_found (first last : string) (info : contact_info)
  (before : list Contact) (c : Contact) (after acc : list Contact)
  (self : PhoneBook) (w : world) :
  Forall (fun b => ~ has_name first last b) before ->
  has_name first last c ->
  update_first first last info acc (before ++ c :: after) self w
  = (Return true,
     mkPhoneBook ((acc ++ before) ++ with_info info (clock w (ticks w)) c
                                     :: after)
       (filename self),
     printed (ticked 1 w) [ContactUpdated first last]).
Proof.
  intros Hb Hc. revert acc.
  induction Hb as [| b before Hnb _ IH]; intros acc; cbn [app update_first].
  - apply has_name_eqb in Hc. rewrite Hc.
    unfold bind at 1, on_contact. rewrite update_contact_run.
    rewrite app_nil_r. reflexivity.
  - destruct (String.eqb (Text.lower (first_name b)) (Text.lower first)
              && String.eqb (Text.lower (last_name b)) (Text.lower last))
      eqn:E.
    + apply has_name_eqb in E. contradiction.
    + rewrite IH, <- (app_assoc acc [b] before). reflexivity.
Qed.

Lemma update_first_not_found (first last : string) (info : contact_info)
  (l acc : list Contact) (self : PhoneBook) (w : world) :
  Forall (fun b => ~ has_name first last b) l ->
  update_first first last info acc l self w = (Return false, self, w).
Proof.
  intros Hl. revert acc.
  induction Hl as [| b l Hnb _ IH]; intros acc; cbn [update_first];
    [reflexivity |].
  destruct (String.eqb (Text.lower (first_name b)) (Text.lower first)
            && String.eqb (Text.lower (last_name b)) (Text.lower last))
    eqn:E; [| apply IH].
  apply has_name_eqb in E. contradiction.
Qed.

(** X6.  [update_contact_by_name] changes the first record whose names are
    the given ones (case ignored) and only that one: the records before and
    after it stay, in their places, also those after it that have the same
    names, and the list is not sorted again.  The record gets the new values
    that are given and not empty and the time of the call as [updated_at];
    the update is printed. *)
Theorem update_contact_by_name_first_match
  (first last : string) (info : contact_info)
  (before : list Contact) (c : Contact) (after : list Contact)
  (self : PhoneBook) (w : world) :
  contacts self = before ++ c :: after ->
  Forall (fun b => ~ has_name first last b) before ->
  has_name first last c ->
  update_contact_by_name first last info self w
  = (Return tt,
     mkPhoneBook (before ++ with_info info (clock w (ticks w)) c :: after)
       (filename self),
     printed (ticked 1 w) [ContactUpdated first last]).
Proof.
  intros Hl Hb Hc. unfold update_contact_by_name, get_contacts.
  unfold bind at 1 2, get, ret. cbv beta iota. rewrite Hl.
  unfold bind. now rewrite (update_first_found _ _ _ _ _ _ [] _ _ Hb Hc).
Qed.

Lemma update_contact_by_name_first_match_witness :
  contacts (mkPhoneBook [jane_smith; john_doe; john_doe_2] "contacts.csv")
  = [jane_smith] ++ john_doe :: [john_doe_2] /\
  Forall (fun b => ~ has_name "john" "DOE" b) [jane_smith] /\
  has_name "john" "DOE" john_doe /\
  update_contact_by_name "john" "DOE" new_phone
    (mkPhoneBook [jane_smith; john_doe; john_doe_2] "contacts.csv")
    sample_world
  = (Return tt,
     mkPhoneBook
       ([jane_smith]
        ++ with_info new_phone (clock sample_world (ticks sample_world))
             john_doe
           :: [john_doe_2])
       "contacts.csv",
     printed (ticked 1 sample_world) [ContactUpdated "john" "DOE"]).
Proof.
  assert (Hb : Forall (fun b => ~ has_name "john" "DOE" b) [jane_smith]).
  { constructor; [| constructor]. intros [H _]. discriminate H. }
  assert (Hc : has_name "john" "DOE" john_doe) by (split; reflexivity).
  split; [reflexivity |]. split; [exact Hb |]. split; [exact Hc |].
  exact (update_contact_by_name_first_match "john" "DOE" new_phone
           [jane_smith] john_doe [john_doe_2]
           (mkPhoneBook [jane_smith; john_doe; john_doe_2] "contacts.csv")
           sample_world eq_refl Hb Hc).
Defined.

(** X7.  When no record has the names, [update_contact_by_name] leaves the
    phone book and the clock as they are and prints that no contact was
    found. *)
Theorem update_contact_by_name_not_found
  (first last : string) (info : contact_info) (self : PhoneBook) (w : world) :
  Forall (fun b => ~ has_name first last b) (contacts self) ->
  update_contact_by_name first last info self w
  = (Return tt, self, printed w [NoContactWithName first last]).
Proof.
  intros Hl. unfold update_contact_by_name, get_contacts.
  unfold bind at 1 2, get, ret. cbv beta iota.
  unfold bind. now rewrite (update_first_not_found _ _ _ _ [] _ _ Hl).
Qed.

Lemma update_contact_by_name_not_found_witness :
  Forall (fun b => ~ has_name "Jane" "Doe" b) (contacts smith_store) /\
  update_contact_by_name "Jane" "Doe" new_phone smith_store sample_world
  = (Return tt, smith_store,
     printed sample_world [NoContactWithName "Jane" "Doe"]).
Proof.
  assert (H : Forall (fun b => ~ has_name "Jane" "Doe" b)
                (contacts smith_store)).
  { repeat constructor; intros [H1 H2]; discriminate. }
  split; [exact H |].
  exact (update_contact_by_name_not_found "Jane" "Doe" new_phone smith_store
           sample_world H).
Defined.

(** ** Files that are missing *)

(** X8.  When the source of a batch delete does not exist, [batch_delete]
    prints that the file was not found and returns; the phone book is
    unchanged. *)
Theorem batch_delete_missing_file
  (csv_file : string) (self : PhoneBook) (w : world) :
  files w csv_file = None ->
  batch_delete csv_file self w
  = (Return tt, self, printed w [FileNotFound csv_file]).
Proof.
  intros H. unfold batch_delete, try_except, bind at 1, open_read.
  now rewrite H.
Qed.

Lemma batch_delete_missing_file_witness :
  files sample_world "names.csv" = None /\
  batch_delete "names.csv" smith_store sample_world
  = (Return tt, smith_store, printed sample_world [FileNotFound "names.csv"]).
Proof.
  split; [reflexivity |].
  exact (batch_delete_missing_file "names.csv" smith_store sample_world
           eq_refl).
Defined.

(** X9.  When the import source does not exist, [batch_import] prints that
    the file was not found and returns; the phone book and the clock are
    unchanged. *)
Theorem batch_import_missing_file
  (csv_file : string) (self : PhoneBook) (w : world) :
  files w csv_file = None ->
  batch_import csv_file self w
  = (Return tt, self, printed w [FileNotFound csv_file]).
Proof.
  intros H. unfold batch_import, try_except, bind at 1, open_read.
  now rewrite H.
Qed.

Lemma batch_import_missing_file_witness :
  files sample_world "import.csv" = None /\
  batch_import "import.csv" smith_store sample_world
  = (Return tt, smith_store,
     printed sample_world [FileNotFound "import.csv"]).
Proof.
  split; [reflexivity |].
  exact (batch_import_missing_file "import.csv" smith_store sample_world
           eq_refl).
Defined.

(** X10.  When the persistence file does not exist, [load_from_file] leaves
    the phone book as it is, prints that it starts empty and returns. *)
Theorem load_from_file_missing_file (self : PhoneBook) (w : world) :
  files w (filename self) = None ->
  load_from_file self w
  = (Return tt, self, printed w [StartingEmpty (filename self)]).
Proof.
  intros H. unfold load_from_file, bind at 1, get. cbv beta iota.
  unfold try_except, bind at 1, open_read. now rewrite H.
Qed.

Lemma load_from_file_missing_file_witness :
  files sample_world (filename (PhoneBook_init "/app")) = None /\
  load_from_file (PhoneBook_init "/app") sample_world
  = (Return tt, PhoneBook_init "/app",
     printed sample_world [StartingEmpty "/app/contacts.csv"]).
Proof.
  split; [reflexivity |].
  exact (load_from_file_missing_file (PhoneBook_init "/app") sample_world
           eq_refl).
Defined.

(** ** Batch delete on a source that exists *)

Lemma lstrip_idempotent (s : string) :
  Text.lstrip (Text.lstrip s) = Text.lstrip s.
Proof.
  induction s as [| c s IH]; [reflexivity |]. simpl.
  destruct (Text.is_space c) eqn:E; [exact IH |]. simpl. now rewrite E.
Qed.

Lemma rstrip_cons (c : ascii) (s : string) :
  Text.rstrip (String c s)
  = match Text.rstrip s with
    | EmptyString =>
        if Text.is_space c then EmptyString else String c EmptyString
    | r => String c r
    end.
Proof. reflexivity. Qed.

Lemma rstrip_idempotent (s : string) :
  Text.rstrip (Text.rstrip s) = Text.rstrip s.
Proof.
  induction s as [| c s IH]; [reflexivity |]. rewrite rstrip_cons.
  destruct (Text.rstrip s) as [| d r] eqn:E.
  - destruct (Text.is_space c) eqn:Ec; [reflexivity |].
    rewrite rstrip_cons. simpl. now rewrite Ec.
  - rewrite rstrip_cons, IH. reflexivity.
Qed.

Lemma rstrip_lstrip_fixed (s : string) :
  Text.rstrip s = s -> Text.rstrip (Text.lstrip s) = Text.lstrip s.
Proof.
  induction s as [| c s IH]; [reflexivity |]. intros H.
  cbn [Text.lstrip]. destruct (Text.is_space c) eqn:Ec; [| exact H].
  apply IH. rewrite rstrip_cons, Ec in H.
  destruct (Text.rstrip s); [discriminate H | congruence].
Qed.

Lemma strip_idempotent (s : string) : Text.strip (Text.strip s) = Text.strip s.
Proof.
  unfold Text.strip.
  rewrite (rstrip_lstrip_fixed (Text.rstrip s)) by apply rstrip_idempotent.
  apply lstrip_idempotent.
Qed.

Lemma spared_names (row : list string) (c : Contact) :
  spared row c = true <-> ~ names row c.
Proof.
  unfold spared, names. rewrite !strip_idempotent, orb_true_iff.
  rewrite kept_same_name, negb_true_iff, Nat.leb_gt. split.
  - intros [H | H] [H1 H2]; [lia | contradiction].
  - intros H. destruct (le_lt_dec 2 (length row)) as [Hl | Hl]; [| now left].
    right. intros Hs. apply H. now split.
Qed.

Lemma filter_filter {A : Type} (p q : A -> bool) (l : list A) :
  filter q (filter p l) = filter (fun x => p x && q x) l.
Proof.
  induction l as [| x l IH]; [reflexivity |]. simpl.
  destruct (p x); simpl; [destruct (q x) |]; now rewrite IH.
Qed.

Lemma delete_row_run (row nf : list string) (self : PhoneBook) (w : world) :
  exists (nf' : list string) (w' : world),
    delete_row row nf self w
    = (Return nf',
       mkPhoneBook (filter (spared row) (contacts self)) (filename self),
       w') /\
    files w' = files w /\ ticks w' = ticks w.
Proof.
  unfold delete_row, spared.
  destruct (2 <=? length row)%nat; cbn [negb orb].
  - unfold get_contacts. unfold bind at 1 2, get, ret. cbv beta iota.
    unfold bind at 1. rewrite remove_contact_by_name_run. cbv beta iota zeta.
    unfold bind, get, ret. cbv beta iota. cbn [contacts].
    destruct (_ <? _)%nat; destruct (_ =? _)%nat;
      eexists _, _; (split; [reflexivity | split; reflexivity]).
  - exists nf, w. rewrite filter_all by reflexivity.
    destruct self. repeat split.
Qed.

Lemma delete_loop (rows : list (list string)) :
  forall (nf : list string) (self : PhoneBook) (w : world),
  exists (nf' : list string) (w' : world),
    for_fold rows nf delete_row self w
    = (Return nf',
       mkPhoneBook
         (filter (fun c => forallb (fun row => spared row c) rows)
            (contacts self))
         (filename self),
       w') /\
    files w' = files w /\ ticks w' = ticks w.
Proof.
  induction rows as [| row rows IH]; intros nf self w.
  - exists nf, w. cbn [for_fold forallb]. rewrite filter_all by reflexivity.
    destruct self. repeat split.
  - destruct (delete_row_run row nf self w) as (nf1 & w1 & Hrow & Hf1 & Ht1).
    rewrite (for_fold_cons _ _ _ _ _ _ _ _ _ Hrow).
    destruct (IH nf1
                (mkPhoneBook (filter (spared row) (contacts self))
                   (filename self)) w1)
      as (nf' & w' & Hrun & Hf & Ht).
    exists nf', w'. rewrite Hrun. cbn [contacts filename forallb].
    rewrite filter_filter. repeat split; congruence.
Qed.

(** A text that is not empty has a first record. *)
Lemma splitlines_not_empty (translate : bool) (text cur : string) :
  text <> EmptyString \/ cur <> EmptyString ->
  File.splitlines translate cur text <> [].
Proof.
  revert cur. induction text as [| c rest IH]; intros cur H.
  - destruct H as [H | H]; [congruence |]. simpl.
    destruct cur; [congruence | discriminate].
  - simpl. destruct (File.is_lf c); [discriminate |].
    destruct (File.is_cr c).
    + destruct rest as [| c' rest']; [discriminate |].
      destruct (File.is_lf c'); discriminate.
    + apply IH. right. apply append_not_empty.
Qed.

Lemma feed_line_state (p p' : Csv.parser) (l : string) :
  Csv.feed_line p l = Some p' ->
  Csv.state p' = Csv.START_RECORD \/ Csv.state p' = Csv.IN_QUOTED_FIELD.
Proof.
  unfold Csv.feed_line. destruct (Csv.feed p l) as [p1 |]; [| discriminate].
  destruct (process_eol p1) as (p2 & -> & H). intros [= <-]. tauto.
Qed.

Lemma read_has_record (lines : list string) (p : Csv.parser) :
  lines <> [] \/ Csv.state p = Csv.IN_QUOTED_FIELD ->
  Csv.state p <> Csv.EAT_CRNL ->
  Forall well_formed_line lines ->
  Csv.records (Csv.read p lines) <> [].
Proof.
  revert p. induction lines as [| l lines IH]; intros p H Hp Hl.
  - destruct H as [H | H]; [congruence |]. simpl. rewrite H.
    rewrite orb_true_r. discriminate.
  - inversion Hl as [| ? ? Hwf Hl']; subst.
    destruct (feed_line_well_formed p l Hp Hwf) as (p' & Hfeed & Hp').
    cbn [Csv.read]. rewrite Hfeed.
    destruct (feed_line_state _ _ _ Hfeed) as [Hs | Hs]; rewrite Hs.
    + discriminate.
    + apply IH; auto.
Qed.

Lemma reader_has_record (translate : bool) (text : string) :
  text <> EmptyString ->
  Csv.records (Csv.reader (File.lines translate text)) <> [].
Proof.
  intros H. apply read_has_record.
  - left. apply splitlines_not_empty. now left.
  - discriminate.
  - apply splitlines_well_formed. exact I.
Qed.



(** ** Rows taken into the phone book *)

Lemma takes_in_add (row : list string) (self : PhoneBook) (w : world)
  (t t' : datetime) :
  has_three_fields row = true ->
  exists (self' : PhoneBook) (w' : world),
    add_contact
      (mkContact (nth 0 row EmptyString) (nth 1 row EmptyString)
         (nth 2 row EmptyString)
         (if (3 <? length row)%nat then nth_error row 3 else None)
         (if (4 <? length row)%nat then nth_error row 4 else None) t t')
      self w
    = (Return tt, self', w') /\
    files w' = files w /\
    (invalid_phone row = false -> w' = w) /\
    exists l : list Contact, takes_in row self self' l.
Proof.
  intros Hlong. unfold takes_in, importable, invalid_phone.
  cbn [filter]. rewrite Hlong. cbn [andb].
  destruct (validate_phone_number (nth 2 row EmptyString)) eqn:Hv.
  - rewrite add_contact_valid by exact Hv. eexists _, _.
    split; [reflexivity |]. split; [reflexivity |]. split; [reflexivity |].
    match goal with
    | |- context [sorted _ (_ ++ [?c])] => exists [c]
    end.
    cbn [negb contacts filename].
    split; [reflexivity |]. split; [| split].
    + constructor; [| constructor]. unfold from_row.
      cbn [first_name last_name phone_number email address].
      repeat split.
    + apply sorted_perm.
    + intros _. apply sorted_StronglySorted.
  - rewrite add_contact_invalid by exact Hv. eexists _, _.
    split; [reflexivity |]. split; [reflexivity |].
    split; [discriminate |].
    exists []. cbn [negb]. split; [reflexivity |]. split; [constructor |].
    split; [now rewrite app_nil_r |].
    intros [H | H]; [exact H | congruence].
Qed.

Lemma takes_in_skip (row : list string) (self : PhoneBook) :
  importable row = false -> takes_in row self self [].
Proof.
  intros H. unfold takes_in. cbn [filter]. rewrite H.
  split; [reflexivity |]. split; [constructor |].
  split; [now rewrite app_nil_r |].
  intros [Hs | Hs]; [exact Hs | congruence].
Qed.

Lemma import_row_takes_in (row invalid : list string) (self : PhoneBook)
  (w : world) :
  exists (invalid' : list string) (self' : PhoneBook) (w' : world)
         (l : list Contact),
    import_row row invalid self w = (Return invalid', self', w') /\
    files w' = files w /\ takes_in row self self' l.
Proof.
  destruct (has_three_fields row) eqn:Hlong.
  - unfold import_row. unfold has_three_fields in Hlong. rewrite Hlong.
    unfold bind at 1. rewrite Contact_init_run.
    destruct (validate_phone_number (nth 2 row EmptyString)) eqn:Hv;
      cbn [negb].
    + destruct (takes_in_add row self (ticked 2 w) (clock w (ticks w))
                  (clock w (S (ticks w))) Hlong)
        as (self' & w' & Hadd & Hf & _ & l & Hl).
      unfold bind. rewrite Hadd. exists invalid, self', w', l.
      split; [reflexivity |]. split; [exact Hf | exact Hl].
    + eexists _, self, _, []. split; [reflexivity |].
      split; [reflexivity |]. apply takes_in_skip.
      unfold importable, invalid_phone. rewrite Hv. apply andb_false_r.
  - rewrite (import_row_short _ _ _ _ Hlong). exists invalid, self, w, [].
    split; [reflexivity |]. split; [reflexivity |].
    apply takes_in_skip. unfold importable. now rewrite Hlong.
Qed.

Lemma load_row_takes_in (row : list string) (u : unit) (self : PhoneBook)
  (w : world) :
  exists (u' : unit) (self' : PhoneBook) (w' : world) (l : list Contact),
    load_row row u self w = (Return u', self', w') /\
    files w' = files w /\ takes_in row self self' l.
Proof.
  destruct (has_three_fields row) eqn:Hlong.
  - unfold load_row. unfold has_three_fields in Hlong. rewrite Hlong.
    unfold bind. rewrite Contact_init_run.
    destruct (takes_in_add row self (ticked 2 w) (clock w (ticks w))
                (clock w (S (ticks w))) Hlong)
      as (self' & w' & Hadd & Hf & _ & l & Hl).
    rewrite Hadd. exists tt, self', w', l.
    split; [reflexivity |]. split; [exact Hf | exact Hl].
  - unfold load_row. unfold has_three_fields in Hlong. rewrite Hlong.
    exists tt, self, w, []. split; [reflexivity |]. split; [reflexivity |].
    apply takes_in_skip. unfold importable, has_three_fields.
    now rewrite Hlong.
Qed.

Section TakingIn.
Context {B : Type} (body : list string -> B -> M PhoneBook B).

Hypothesis body_takes_in :
  forall (row : list string) (acc : B) (self : PhoneBook) (w : world),
  exists (acc' : B) (self' : PhoneBook) (w' : world) (l : list Contact),
    body row acc self w = (Return acc', self', w') /\
    files w' = files w /\ takes_in row self self' l.

Lemma loop_takes_in (rows : list (list string)) :
  forall (acc : B) (self : PhoneBook) (w : world),
  exists (acc' : B) (self' : PhoneBook) (w' : world) (l : list Contact),
    for_fold rows acc body self w = (Return acc', self', w') /\
    files w' = files w /\
    filename self' = filename self /\
    Forall2 from_row (filter importable rows) l /\
    Permutation (contacts self') (contacts self ++ l) /\
    (StronglySorted last_name_le (contacts self) \/ l <> [] ->
     StronglySorted last_name_le (contacts self')).
Proof.
  induction rows as [| row rows IH]; intros acc self w.
  - exists acc, self, w, []. cbn. rewrite app_nil_r.
    repeat split; [constructor | reflexivity |].
    intros [H | H]; [exact H | congruence].
  - destruct (body_takes_in row acc self w)
      as (acc1 & self1 & w1 & l1 & Hrow & Hf1 & Hn1 & Hl1 & Hp1 & Hs1).
    rewrite (for_fold_cons _ _ _ _ _ _ _ _ _ Hrow).
    destruct (IH acc1 self1 w1)
      as (acc' & self' & w' & l & Hrun & Hf & Hn & Hl & Hp & Hs).
    exists acc', self', w', (l1 ++ l). rewrite Hrun.
    split; [reflexivity |]. split; [congruence |]. split; [congruence |].
    split; [| split].
    + change (row :: rows) with ([row] ++ rows). rewrite filter_app.
      now apply Forall2_app.
    + rewrite Hp, Hp1, <- app_assoc. reflexivity.
    + intros H. apply Hs. destruct l as [| c l]; [left | right; discriminate].
      apply Hs1. rewrite app_nil_r in H. exact H.
Qed.
End TakingIn.



(** ** Saving, loading and displaying *)

Lemma load_from_file_written (self : PhoneBook) (w : world) (text : string) :
  load_from_file self (with_file w (filename self) text)
  = match
      for_rows (Csv.reader (File.lines true text)) tt load_row
        self (with_file w (filename self) text)
    with
    | (Raise FileNotFoundError, self', w') =>
        print (StartingEmpty (filename self)) self' w'
    | r => r
    end.
Proof.
  unfold load_from_file, bind at 1, get. cbv beta iota.
  unfold try_except, bind at 1, open_read. cbn [files with_file].
  rewrite String.eqb_refl.
  destruct (for_rows _ _ _ _ _) as [[[a | e] s] w']; [reflexivity |].
  destruct e; reflexivity.
Qed.

Lemma load_written_contacts (target : PhoneBook) (cs : list Contact)
  (w : world) :
  exists (self' : PhoneBook) (w' : world) (l : list Contact),
    load_from_file target
      (with_file w (filename target)
         (String.concat EmptyString
            (map (fun c => Csv.writerow (contact_row c)) cs)))
    = (Return tt, self', w') /\
    Forall2 read_back (filter valid_contact cs) l /\
    Permutation (contacts self') (contacts target ++ l).
Proof.
  rewrite load_from_file_written.
  rewrite <- (map_map contact_row Csv.writerow).
  rewrite reader_writerows.
  - unfold for_rows, bind. cbn [Csv.records Csv.failed].
    rewrite map_map.
    change (map (fun x => map read_cell (contact_row x)) cs)
      with (map reloaded_row cs).
    destruct (load_loop cs target
                (with_file w (filename target)
                   (String.concat EmptyString
                      (map Csv.writerow (map contact_row cs)))))
      as (self' & w' & l & Hrun & _ & Hl & Hp).
    rewrite Hrun. now exists self', w', l.
  - apply Forall_forall. intros row Hrow.
    apply in_map_iff in Hrow as (c & <- & _). discriminate.
Qed.


Lemma read_back_str (c c' : Contact) :
  read_back c c' -> cr_free c -> Contact_str c' = Contact_str c.
Proof.
  intros (H1 & H2 & H3 & H4 & H5) (N1 & N2 & _ & N4 & N5).
  unfold Contact_str. rewrite H1, H2, H3, H4, H5.
  rewrite !no_cr_universal_newlines by assumption.
  destruct (email c) as [[| a s] |]; destruct (address c) as [[| b t] |];
    reflexivity.
Qed.

Lemma display_contacts_run (self : PhoneBook) (w : world) :
  display_contacts self w
  = (Return tt, self, printed w (display_lines (contacts self))).
Proof.
  unfold display_contacts, get_contacts, display_lines.
  unfold bind at 1 2, get, ret. cbv beta iota.
  destruct (contacts self) as [| c l] eqn:E.
  - reflexivity.
  - unfold bind, ret.
    rewrite (for_each_print (fun contact => Line (Contact_str contact))).
    reflexivity.
Qed.

Lemma Forall2_map_eq {A B C : Type} (R : A -> B -> Prop) (f : A -> C)
  (g : B -> C) (l : list A) (l' : list B) :
  Forall2 R l l' -> (forall a b, In a l -> R a b -> f a = g b) ->
  map f l = map g l'.
Proof.
  induction 1 as [| a b l l' Hab _ IH]; intros H; [reflexivity |].
  simpl. rewrite (H a b (or_introl eq_refl) Hab), IH; [reflexivity |].
  intros a' b' Ha'. apply H. now right.
Qed.



(** ** Filtering by date, further *)

Lemma date_le_trans (a b c : date) : date_le a b -> date_le b c -> date_le a c.
Proof. unfold date_le. destruct a, b, c. simpl. lia. Qed.

(** X16.  When both bounds parse and the end date is before the start date,
    no record is in the range: the result is empty, and the line printed
    says that no contacts were found between the two dates. *)
Theorem filter_by_date_reversed_bounds
  (start_date end_date : string) (s e : date) (self : PhoneBook) (w : world) :
  strptime_date start_date = Some s ->
  strptime_date end_date = Some e ->
  ~ date_le s e ->
  filter_by_date start_date end_date self w
  = (Return [], self, printed w [NoContactsBetween s e]).
Proof.
  intros Hs He Hlt.
  unfold filter_by_date, try_except, bind at 1. rewrite Hs.
  cbn [lift_option ret]. unfold bind at 1. rewrite He.
  cbn [lift_option ret]. unfold get_contacts. unfold bind, get, ret.
  cbv beta iota.
  replace (filter (in_range s e) (contacts self)) with (@nil Contact);
    [reflexivity |].
  symmetry. induction (contacts self) as [| c l IH]; [reflexivity |].
  simpl. rewrite IH.
  destruct (in_range s e c) eqn:E; [| reflexivity].
  unfold in_range in E. apply andb_true_iff in E as [E1 E2].
  apply date_leb_le in E1, E2. exfalso. apply Hlt.
  now apply (date_le_trans _ _ _ E1 E2).
Qed.

Lemma filter_by_date_reversed_bounds_witness :
  strptime_date "2024-02-01" = Some (mkdate 2024 2 1) /\
  strptime_date "2024-01-01" = Some (mkdate 2024 1 1) /\
  ~ date_le (mkdate 2024 2 1) (mkdate 2024 1 1) /\
  filter_by_date "2024-02-01" "2024-01-01" smith_store sample_world
  = (Return [], smith_store,
     printed sample_world
       [NoContactsBetween (mkdate 2024 2 1) (mkdate 2024 1 1)]).
Proof.
  assert (H : ~ date_le (mkdate 2024 2 1) (mkdate 2024 1 1)).
  { unfold date_le. simpl. lia. }
  split; [reflexivity |]. split; [reflexivity |]. split; [exact H |].
  exact (filter_by_date_reversed_bounds "2024-02-01" "2024-01-01"
           (mkdate 2024 2 1) (mkdate 2024 1 1) smith_store sample_world
           eq_refl eq_refl H).
Defined.

(** ** Searching, further *)

Lemma lower_append (a b : string) :
  Text.lower (a +++ b) = Text.lower a +++ Text.lower b.
Proof. induction a as [| c a IH]; simpl; [reflexivity | now rewrite IH]. Qed.

Lemma lstrip_suffix (s : string) :
  exists before : string, s = before +++ Text.lstrip s.
Proof.
  induction s as [| c s [before IH]]; [now exists EmptyString |].
  simpl. destruct (Text.is_space c).
  - exists (String c before). simpl. now rewrite <- IH.
  - now exists EmptyString.
Qed.

Lemma rstrip_prefix (s : string) :
  exists after : string, s = Text.rstrip s +++ after.
Proof.
  induction s as [| c s [after IH]]; [now exists EmptyString |].
  rewrite rstrip_cons. destruct (Text.rstrip s) as [| d r].
  - destruct (Text.is_space c).
    + now exists (String c s).
    + now exists s.
  - exists after. simpl. now rewrite IH at 1.
Qed.

Lemma strip_substring_of (s : string) : substring_of (Text.strip s) s.
Proof.
  unfold substring_of, Text.strip.
  destruct (rstrip_prefix s) as [after Ha].
  destruct (lstrip_suffix (Text.rstrip s)) as [before Hb].
  exists before, after. rewrite <- append_assoc, <- Hb. exact Ha.
Qed.

Lemma substring_of_lower (q s : string) :
  substring_of q s -> substring_of (Text.lower q) (Text.lower s).
Proof.
  intros (before & after & ->).
  exists (Text.lower before), (Text.lower after).
  now rewrite !lower_append.
Qed.

Lemma digit_lower (c : ascii) :
  Text.is_digit c = true -> Text.lower_char c = c.
Proof.
  destruct c as [[] [] [] [] [] [] [] []]; vm_compute;
    first [discriminate | reflexivity].
Qed.

Lemma valid_phone_lower (s : string) :
  validate_phone_number s = true -> Text.lower s = s.
Proof.
  intros H. apply validate_phone_number_sound in H.
  destruct H as (area & exchange & line & Ha & He & Hl & ->).
  apply digits_inv3 in Ha as (a1 & a2 & a3 & -> & Ha1 & Ha2 & Ha3).
  apply digits_inv3 in He as (e1 & e2 & e3 & -> & He1 & He2 & He3).
  apply digits_inv4 in Hl as (l1 & l2 & l3 & l4 & -> & Hl1 & Hl2 & Hl3 & Hl4).
  cbn [String.append Text.lower].
  rewrite (digit_lower _ Ha1), (digit_lower _ Ha2), (digit_lower _ Ha3),
    (digit_lower _ He1), (digit_lower _ He2), (digit_lower _ He3),
    (digit_lower _ Hl1), (digit_lower _ Hl2), (digit_lower _ Hl3),
    (digit_lower _ Hl4).
  reflexivity.
Qed.

Lemma substring_of_refl (s : string) : substring_of s s.
Proof.
  exists EmptyString, EmptyString. simpl. now rewrite append_empty_r.
Qed.

(** X17.  A record of the phone book is found by its own names and phone
    number: a query that is its first name or its last name, in any case
    and with whitespace around it or not, or that is its phone number, when
    valid, with whitespace around it or not, has the record in its
    result. *)
Theorem search_contact_finds_own_values
  (c : Contact) (query : string) (self : PhoneBook) (w : world) :
  In c (contacts self) ->
  Text.lower (Text.strip query) = Text.lower (Text.strip (first_name c)) \/
  Text.lower (Text.strip query) = Text.lower (Text.strip (last_name c)) \/
  (validate_phone_number (phone_number c) = true /\
   Text.strip query = phone_number c) ->
  exists result : list Contact,
    search_contact query self w = (Return result, self, w) /\
    In c result.
Proof.
  intros Hc Hq. eexists. split; [reflexivity |].
  apply filter_In. split; [exact Hc |].
  apply found_substring_of. destruct Hq as [-> | [-> | [Hv ->]]].
  - left. apply substring_of_lower, strip_substring_of.
  - right. left. apply substring_of_lower, strip_substring_of.
  - right. right. rewrite (valid_phone_lower _ Hv). apply substring_of_refl.
Qed.

Lemma search_contact_finds_own_values_witness :
  In john_doe (contacts smith_store) /\
  (Text.lower (Text.strip "  DOE ")
   = Text.lower (Text.strip (first_name john_doe)) \/
   Text.lower (Text.strip "  DOE ")
   = Text.lower (Text.strip (last_name john_doe)) \/
   (validate_phone_number (phone_number john_doe) = true /\
    Text.strip "  DOE " = phone_number john_doe)) /\
  exists result : list Contact,
    search_contact "  DOE " smith_store sample_world
    = (Return result, smith_store, sample_world) /\
    In john_doe result.
Proof.
  assert (Hin : In john_doe (contacts smith_store)) by (left; reflexivity).
  assert (Hq : Text.lower (Text.strip "  DOE ")
               = Text.lower (Text.strip (first_name john_doe)) \/
               Text.lower (Text.strip "  DOE ")
               = Text.lower (Text.strip (last_name john_doe)) \/
               (validate_phone_number (phone_number john_doe) = true /\
                Text.strip "  DOE " = phone_number john_doe)).
  { right. left. reflexivity. }
  split; [exact Hin |]. split; [exact Hq |].
  exact (search_contact_finds_own_values john_doe "  DOE " smith_store
           sample_world Hin Hq).
Defined.

(** ** Timestamps *)

(** X18.  With a clock that never goes back, a contact is created with
    [updated_at] not before [created_at], and an update at any later time
    keeps it so: [created_at] stays the reading of the creation, and
    [updated_at] becomes the later reading. *)
Theorem timestamps_in_order
  (le : datetime -> datetime -> Prop)
  (first last phone : string) (mail addr : option string)
  (info : contact_info) (w w2 : world) :
  monotone le w ->
  clock w2 = clock w ->
  ticks w + 2 <= ticks w2 ->
  exists (c c' : Contact),
    Contact_init first last phone mail addr tt w
    = (Return c, tt, ticked 2 w) /\
    le (created_at c) (updated_at c) /\
    update_contact (new_first_name info) (new_last_name info)
      (new_phone_number info) (new_email info) (new_address info) c w2
    = (Return tt, c', ticked 1 w2) /\
    created_at c' = created_at c /\
    le (created_at c') (updated_at c').
Proof.
  intros Hmono Hclock Hticks. eexists _, _.
  rewrite Contact_init_run, update_contact_run.
  split; [reflexivity |]. cbn [created_at updated_at with_info].
  split; [apply Hmono; lia |]. split; [reflexivity |].
  split; [reflexivity |]. rewrite Hclock. apply Hmono. lia.
Qed.

Lemma timestamps_in_order_witness :
  monotone day_le day_world /\
  clock (ticked 5 day_world) = clock day_world /\
  ticks day_world + 2 <= ticks (ticked 5 day_world) /\
  exists (c c' : Contact),
    Contact_init "John" "Doe" "(555) 123-4567" None None tt day_world
    = (Return c, tt, ticked 2 day_world) /\
    day_le (created_at c) (updated_at c) /\
    update_contact (new_first_name new_phone) (new_last_name new_phone)
      (new_phone_number new_phone) (new_email new_phone)
      (new_address new_phone) c (ticked 5 day_world)
    = (Return tt, c', ticked 1 (ticked 5 day_world)) /\
    created_at c' = created_at c /\
    day_le (created_at c') (updated_at c').
Proof.
  assert (Hm : monotone day_le day_world).
  { intros i j Hij. unfold day_le, day_world, day_clock. simpl. lia. }
  assert (Ht : ticks day_world + 2 <= ticks (ticked 5 day_world)).
  { simpl. lia. }
  split; [exact Hm |]. split; [reflexivity |]. split; [exact Ht |].
  exact (timestamps_in_order day_le "John" "Doe" "(555) 123-4567" None None
           new_phone day_world (ticked 5 day_world) Hm eq_refl Ht).
Defined.

(** ** The e-mail check of the menu *)

Lemma contains_char (c : ascii) (s : string) :
  Text.contains (String c EmptyString) s = true <-> occurs c s.
Proof.
  induction s as [| d s IH]; simpl; [split; [discriminate | tauto] |].
  rewrite orb_true_iff, IH, andb_true_r, Ascii.eqb_eq.
  split; intros [H | H]; auto.
Qed.

Lemma occurs_append (c : ascii) (a b : string) :
  occurs c (a +++ b) <-> occurs c a \/ occurs c b.
Proof. induction a as [| d a IH]; simpl; [tauto | rewrite IH; tauto]. Qed.

(** X19.  [validate_email] accepts a text exactly when an at sign and a dot
    occur in it, wherever they are: the two parts of a text can be swapped
    without changing the answer, and a text of less than two characters is
    refused. *)
Theorem validate_email_membership (email : string) :
  (validate_email email = true <-> occurs "@" email /\ occurs "." email) /\
  (forall a b : string, validate_email (a +++ b) = validate_email (b +++ a)) /\
  (String.length email < 2 -> validate_email email = false).
Proof.
  assert (Hiff : forall s, validate_email s = true
                           <-> occurs "@" s /\ occurs "." s).
  { intros s. unfold validate_email.
    now rewrite andb_true_iff, !contains_char. }
  split; [apply Hiff |]. split.
  - intros a b.
    destruct (validate_email (a +++ b)) eqn:E1;
      destruct (validate_email (b +++ a)) eqn:E2; try reflexivity.
    + apply Hiff in E1. rewrite !occurs_append in E1.
      assert (E : validate_email (b +++ a) = true).
      { apply Hiff. rewrite !occurs_append. tauto. }
      congruence.
    + apply Hiff in E2. rewrite !occurs_append in E2.
      assert (E : validate_email (a +++ b) = true).
      { apply Hiff. rewrite !occurs_append. tauto. }
      congruence.
  - intros Hlen. destruct (validate_email email) eqn:E; [| reflexivity].
    apply Hiff in E. destruct E as [H1 H2].
    destruct email as [| c [| d s]]; simpl in *; try lia; try tauto.
    destruct H1 as [-> | []]. destruct H2 as [H | []]. discriminate H.
Qed.

(** ** Batch delete when nobody is named *)

Lemma filter_spared_all (row : list string) (l : list Contact) :
  (forall c, In c l -> ~ names row c) -> filter (spared row) l = l.
Proof.
  intros H. induction l as [| c l IH]; [reflexivity |]. simpl.
  replace (spared row c) with true.
  - rewrite IH; [reflexivity |]. intros c' Hc'. apply H. now right.
  - symmetry. apply spared_names, H. now left.
Qed.

Lemma delete_row_nobody (row nf : list string) (self : PhoneBook)
  (w : world) :
  (forall c, In c (contacts self) -> ~ names row c) ->
  delete_row row nf self w
  = (Return (nf ++ map reported_name (filter has_two_fields [row])),
     self, w).
Proof.
  intros H. pose proof (filter_spared_all row (contacts self) H) as Hf.
  unfold delete_row, has_two_fields. cbn [filter].
  unfold spared in Hf.
  destruct (2 <=? length row)%nat.
  - assert (Hk : filter
                   (kept (Text.strip (Text.strip (nth 0 row EmptyString)))
                      (Text.strip (Text.strip (nth 1 row EmptyString))))
                   (contacts self) = contacts self).
    { rewrite <- Hf at 2. apply filter_ext. reflexivity. }
    unfold get_contacts. unfold bind at 1 2, get, ret. cbv beta iota.
    unfold bind at 1. rewrite remove_contact_by_name_run. cbv beta iota zeta.
    rewrite Hk, Nat.ltb_irrefl.
    unfold bind, get, ret. cbv beta iota. cbn [contacts].
    rewrite Nat.eqb_refl. destruct self. reflexivity.
  - cbn [map]. now rewrite app_nil_r.
Qed.

Lemma delete_loop_nobody (rows : list (list string)) (self : PhoneBook)
  (w : world) :
  (forall row c, In row rows -> In c (contacts self) -> ~ names row c) ->
  forall nf : list string,
    for_fold rows nf delete_row self w
    = (Return (nf ++ map reported_name (filter has_two_fields rows)),
       self, w).
Proof.
  induction rows as [| row rows IH]; intros H nf.
  - cbn. now rewrite app_nil_r.
  - rewrite (for_fold_cons _ _ _ _ _ _ _ _ _
               (delete_row_nobody row nf self w
                  (fun c => H row c (or_introl eq_refl)))).
    rewrite IH by (intros r c Hr; apply H; now right).
    change (row :: rows) with ([row] ++ rows).
    now rewrite filter_app, map_app, app_assoc.
Qed.



(** ** Writing the persistence file and importing it *)

Lemma splitlines_crlf_raw (cur rest : string) :
  File.splitlines false cur (String File.CR (String File.LF rest))
  = (cur +++ String File.CR (String File.LF EmptyString))
    :: File.splitlines false EmptyString rest.
Proof. reflexivity. Qed.

Lemma splitlines_cr_raw (cur : string) (c : ascii) (rest : string) :
  File.is_lf c = false ->
  File.splitlines false cur (String File.CR (String c rest))
  = (cur +++ String File.CR EmptyString)
    :: File.splitlines false EmptyString (String c rest).
Proof.
  intros H. cbn [File.splitlines].
  change (File.is_lf File.CR) with false. change (File.is_cr File.CR) with true.
  cbv iota. now rewrite H.
Qed.

Lemma resume_raw_char (p q q' : Csv.parser) (cur : string) (c : ascii)
  (rest : string) :
  Csv.is_newline c = false ->
  Csv.feed p cur = Some q ->
  Csv.parse_process_char q (Some c) = Some q' ->
  resume_raw p cur (String c rest)
  = resume_raw p (cur +++ String c EmptyString) rest /\
  Csv.feed p (cur +++ String c EmptyString) = Some q'.
Proof.
  intros Hc Hq Hq'. unfold resume_raw. rewrite splitlines_plain by assumption.
  split; [reflexivity |]. rewrite feed_append, Hq. simpl. now rewrite Hq'.
Qed.

(** Inside quotes a line end is read as it is and the record goes on with
    the next line. *)
Lemma resume_raw_line_end_in_quotes (p : Csv.parser) (cur : string)
  (fld : string) (fs : list string) (t text rest : string) :
  Csv.feed p cur = Some (Csv.mkparser Csv.IN_QUOTED_FIELD fld fs) ->
  t = String File.LF EmptyString \/ t = String File.CR EmptyString \/
  t = String File.CR (String File.LF EmptyString) ->
  File.splitlines false cur text
  = (cur +++ t) :: File.splitlines false EmptyString rest ->
  resume_raw p cur text
  = resume_raw (Csv.mkparser Csv.IN_QUOTED_FIELD (fld +++ t) fs)
      EmptyString rest.
Proof.
  intros Hq Ht Hl. unfold resume_raw. rewrite Hl.
  apply read_line_continue; [| reflexivity].
  unfold Csv.feed_line. rewrite feed_append, Hq.
  destruct Ht as [-> | [-> | ->]]; [reflexivity | reflexivity |].
  cbn. unfold Csv.parse_add_char. cbn. now rewrite append_assoc.
Qed.

Lemma resume_raw_quoted_data (f : string) :
  forall (p : Csv.parser) (cur : string) (q : Csv.parser) (rest : string),
    Csv.feed p cur = Some q ->
    Csv.state q = Csv.IN_QUOTED_FIELD ->
    exists (p' : Csv.parser) (cur' : string),
      resume_raw p cur (Csv.join_append_data f +++ String Csv.quotechar rest)
      = resume_raw p' cur' (String Csv.quotechar rest) /\
      Csv.feed p' cur'
      = Some (Csv.mkparser Csv.IN_QUOTED_FIELD (Csv.field q +++ f)
                (Csv.fields q)).
Proof.
  remember (String.length f) as n eqn:Hn. revert f Hn.
  induction n as [n IH] using lt_wf_ind.
  intros f Hn p cur q rest Hq Hs.
  destruct q as [st fld fs]. simpl in Hs. subst st. cbn [Csv.field Csv.fields].
  assert (Hline : forall t text rest',
             t = String File.LF EmptyString \/
             t = String File.CR EmptyString \/
             t = String File.CR (String File.LF EmptyString) ->
             File.splitlines false cur text
             = (cur +++ t) :: File.splitlines false EmptyString rest' ->
             resume_raw p cur text
             = resume_raw (Csv.mkparser Csv.IN_QUOTED_FIELD (fld +++ t) fs)
                 EmptyString rest').
  { intros t text rest' Ht H.
    now apply (resume_raw_line_end_in_quotes p cur fld fs t text rest'). }
  assert (Hnext : forall t f',
             String.length f' < n ->
             exists (p' : Csv.parser) (cur' : string),
               resume_raw (Csv.mkparser Csv.IN_QUOTED_FIELD (fld +++ t) fs)
                 EmptyString
                 (Csv.join_append_data f' +++ String Csv.quotechar rest)
               = resume_raw p' cur' (String Csv.quotechar rest) /\
               Csv.feed p' cur'
               = Some (Csv.mkparser Csv.IN_QUOTED_FIELD (fld +++ t +++ f')
                         fs)).
  { intros t f' Hlen.
    destruct (IH (String.length f') Hlen f' eq_refl
                (Csv.mkparser Csv.IN_QUOTED_FIELD (fld +++ t) fs) EmptyString
                (Csv.mkparser Csv.IN_QUOTED_FIELD (fld +++ t) fs) rest
                eq_refl eq_refl) as (p' & cur' & Hres & Hfeed).
    exists p', cur'. split; [exact Hres |].
    rewrite Hfeed. cbn [Csv.field Csv.fields]. now rewrite append_assoc. }
  destruct f as [| c f'].
  - exists p, cur. simpl. rewrite append_empty_r. now split.
  - simpl in Hn.
    destruct (File.is_cr c) eqn:Ecr; [| destruct (File.is_lf c) eqn:Elf].
    + apply is_cr_eq in Ecr. subst c.
      change (Csv.join_append_data (String File.CR f'))
        with (String File.CR (Csv.join_append_data f')).
      destruct f' as [| c' f''].
      * eexists _, EmptyString. split; [| reflexivity].
        apply (Hline (String File.CR EmptyString)); [tauto |].
        apply splitlines_cr_raw. reflexivity.
      * destruct (File.is_lf c') eqn:Elf.
        -- apply is_lf_eq in Elf. subst c'.
           destruct (Hnext (String File.CR (String File.LF EmptyString)) f'')
             as (p' & cur' & Hres & Hfeed); [simpl in Hn; lia |].
           exists p', cur'. split; [| exact Hfeed].
           rewrite <- Hres.
           apply (Hline (String File.CR (String File.LF EmptyString)));
             [tauto |].
           apply splitlines_crlf_raw.
        -- destruct (Hnext (String File.CR EmptyString) (String c' f''))
             as (p' & cur' & Hres & Hfeed); [simpl in *; lia |].
           exists p', cur'. split; [| exact Hfeed].
           rewrite <- Hres.
           destruct (join_append_data_head c' f'') as [t Ht]. rewrite Ht.
           apply (Hline (String File.CR EmptyString)); [tauto |].
           simpl. apply splitlines_cr_raw, Elf.
    + apply is_lf_eq in Elf. subst c.
      destruct (Hnext (String File.LF EmptyString) f')
        as (p' & cur' & Hres & Hfeed); [lia |].
      exists p', cur'. split; [| exact Hfeed].
      rewrite <- Hres.
      apply (Hline (String File.LF EmptyString)); [tauto |].
      apply splitlines_lf.
    + assert (Hnl : Csv.is_newline c = false).
      { unfold Csv.is_newline. now rewrite Elf, Ecr. }
      destruct (Ascii.eqb c Csv.quotechar) eqn:Equote.
      * simpl. rewrite Equote.
        set (q2 := Csv.mkparser Csv.QUOTE_IN_QUOTED_FIELD fld fs).
        set (q3 := Csv.mkparser Csv.IN_QUOTED_FIELD
                     (fld +++ String c EmptyString) fs).
        destruct (resume_raw_char p _ q2 cur c
                    (String c (Csv.join_append_data f'
                               +++ String Csv.quotechar rest)) Hnl Hq)
          as [Hr1 Hf1].
        { unfold Csv.parse_process_char. simpl. now rewrite Equote. }
        destruct (resume_raw_char p q2 q3 (cur +++ String c EmptyString) c
                    (Csv.join_append_data f' +++ String Csv.quotechar rest)
                    Hnl Hf1) as [Hr2 Hf2].
        { unfold Csv.parse_process_char. simpl. now rewrite Equote. }
        destruct (IH (String.length f')) with (f := f') (p := p)
          (cur := (cur +++ String c EmptyString) +++ String c EmptyString)
          (q := q3) (rest := rest) as (p' & cur' & Hres & Hfeed);
          [lia | reflexivity | assumption | reflexivity |].
        exists p', cur'.
        split; [cbn [String.append]; now rewrite Hr1, Hr2 |].
        rewrite Hfeed. simpl. now rewrite append_assoc.
      * simpl. rewrite Equote.
        set (q3 := Csv.mkparser Csv.IN_QUOTED_FIELD
                     (fld +++ String c EmptyString) fs).
        destruct (resume_raw_char p _ q3 cur c
                    (Csv.join_append_data f' +++ String Csv.quotechar rest)
                    Hnl Hq) as [Hr1 Hf1].
        { unfold Csv.parse_process_char. simpl. now rewrite Equote. }
        destruct (IH (String.length f')) with (f := f') (p := p)
          (cur := cur +++ String c EmptyString)
          (q := q3) (rest := rest) as (p' & cur' & Hres & Hfeed);
          [lia | reflexivity | assumption | reflexivity |].
        exists p', cur'. split; [cbn [String.append]; now rewrite Hr1 |].
        rewrite Hfeed. simpl. now rewrite append_assoc.
Qed.

Lemma resume_raw_plain (f : string) :
  forall (p : Csv.parser) (cur : string) (q : Csv.parser) (rest : string),
    Csv.feed p cur = Some q ->
    Csv.state q = Csv.IN_FIELD ->
    all_chars plain f ->
    resume_raw p cur (f +++ rest) = resume_raw p (cur +++ f) rest /\
    Csv.feed p (cur +++ f)
    = Some (Csv.mkparser Csv.IN_FIELD (Csv.field q +++ f) (Csv.fields q)).
Proof.
  induction f as [| c f IH]; intros p cur q rest Hq Hs Hf.
  - simpl. rewrite !append_empty_r. split; [reflexivity |].
    destruct q; simpl in *; now subst.
  - destruct Hf as [Hc Hf].
    destruct (needs_quotes_false c Hc) as (Hd & _ & Hn).
    destruct q as [st fld fs]. simpl in Hs. subst st.
    destruct (resume_raw_char p _
                (Csv.mkparser Csv.IN_FIELD (fld +++ String c EmptyString) fs)
                cur c (f +++ rest) Hn Hq) as [Hr1 Hf1].
    { unfold Csv.parse_process_char. simpl. now rewrite Hn, Hd. }
    destruct (IH p (cur +++ String c EmptyString) _ rest Hf1 eq_refl Hf)
      as [Hr2 Hf2].
    rewrite append_assoc in Hr2, Hf2. simpl in Hr2, Hf2.
    cbn [String.append]. rewrite Hr1, Hr2, Hf2. simpl.
    now rewrite append_assoc.
Qed.

Lemma resume_raw_field (f : string) (p : Csv.parser) (cur : string)
  (q : Csv.parser) (rest : string) :
  Csv.feed p cur = Some q ->
  fresh q ->
  exists (p' : Csv.parser) (cur' : string),
    resume_raw p cur (Csv.join_append f +++ String Csv.delimiter rest)
    = resume_raw p' cur' rest /\
    Csv.feed p' cur'
    = Some (Csv.mkparser Csv.START_FIELD EmptyString (Csv.fields q ++ [f])).
Proof.
  intros Hq Hfresh. unfold Csv.join_append.
  destruct (Csv.quoted f) eqn:Equoted.
  - cbn [String.append]. rewrite append_assoc. cbn [String.append].
    destruct (resume_raw_char p q _ cur Csv.quotechar
                (Csv.join_append_data f
                 +++ String Csv.quotechar (String Csv.delimiter rest))
                eq_refl Hq (fresh_char q Csv.quotechar Hfresh eq_refl))
      as [Hr1 Hf1].
    simpl in Hf1.
    destruct (resume_raw_quoted_data f p _ _ (String Csv.delimiter rest) Hf1
                eq_refl) as (p2 & cur2 & Hr2 & Hf2).
    simpl in Hf2.
    destruct (resume_raw_char p2 _
                (Csv.mkparser Csv.QUOTE_IN_QUOTED_FIELD f (Csv.fields q))
                cur2 Csv.quotechar (String Csv.delimiter rest)
                eq_refl Hf2 eq_refl) as [Hr3 Hf3].
    destruct (resume_raw_char p2 _
                (Csv.mkparser Csv.START_FIELD EmptyString
                   (Csv.fields q ++ [f]))
                (cur2 +++ String Csv.quotechar EmptyString)
                Csv.delimiter rest eq_refl Hf3 eq_refl) as [Hr4 Hf4].
    eexists _, _. split; [| exact Hf4].
    now rewrite Hr1, Hr2, Hr3, Hr4.
  - destruct (not_quoted f Equoted) as (Hplain & -> & _).
    destruct f as [| c f].
    + destruct (resume_raw_char p q _ cur Csv.delimiter rest eq_refl Hq
                  (fresh_char q Csv.delimiter Hfresh eq_refl)) as [Hr1 Hf1].
      simpl in Hf1. eexists _, _. split; [| exact Hf1]. exact Hr1.
    + destruct Hplain as [Hc Hplain].
      destruct (needs_quotes_false c Hc) as (Hd & Hqc & Hn).
      destruct (resume_raw_char p q _ cur c (f +++ String Csv.delimiter rest)
                  Hn Hq (fresh_char q c Hfresh Hn)) as [Hr1 Hf1].
      rewrite Hqc, Hd in Hf1.
      destruct (resume_raw_plain f p _ _ (String Csv.delimiter rest) Hf1
                  eq_refl Hplain) as [Hr2 Hf2].
      simpl in Hf2.
      destruct (resume_raw_char p _
                  (Csv.mkparser Csv.START_FIELD EmptyString
                     (Csv.fields q ++ [String c f]))
                  ((cur +++ String c EmptyString) +++ f)
                  Csv.delimiter rest eq_refl Hf2 eq_refl) as [Hr3 Hf3].
      eexists _, _. split; [| exact Hf3].
      cbn [String.append]. now rewrite Hr1, Hr2, Hr3.
Qed.

Lemma resume_raw_record_end (p : Csv.parser) (cur : string) (q : Csv.parser)
  (rest : string) :
  Csv.feed p cur = Some q ->
  Csv.state q = Csv.START_FIELD \/ Csv.state q = Csv.IN_FIELD \/
  Csv.state q = Csv.QUOTE_IN_QUOTED_FIELD ->
  resume_raw p cur (Csv.lineterminator +++ rest)
  = Csv.cons_record (Csv.fields q ++ [Csv.field q])
      (resume_raw Csv.parse_reset EmptyString rest).
Proof.
  intros Hq Hs. unfold resume_raw.
  change (Csv.lineterminator +++ rest)
    with (String File.CR (String File.LF rest)).
  rewrite splitlines_crlf_raw.
  apply (read_line_record p
           (Csv.mkparser Csv.START_RECORD EmptyString
              (Csv.fields q ++ [Csv.field q]))); [| reflexivity].
  unfold Csv.feed_line. rewrite feed_append, Hq.
  destruct q as [st fld fs]. simpl in Hs.
  destruct Hs as [-> | [-> | ->]]; reflexivity.
Qed.

Lemma resume_raw_last_field (f : string) (p : Csv.parser) (cur : string)
  (q : Csv.parser) (rest : string) :
  Csv.feed p cur = Some q ->
  fresh q ->
  Csv.state q = Csv.START_FIELD \/ Csv.join_append f <> EmptyString ->
  resume_raw p cur (Csv.join_append f +++ Csv.lineterminator +++ rest)
  = Csv.cons_record (Csv.fields q ++ [f])
      (resume_raw Csv.parse_reset EmptyString rest).
Proof.
  intros Hq Hfresh Hstart. unfold Csv.join_append in *.
  destruct (Csv.quoted f) eqn:Equoted.
  - cbn [String.append]. rewrite append_assoc. cbn [String.append].
    destruct (resume_raw_char p q _ cur Csv.quotechar
                (Csv.join_append_data f
                 +++ String Csv.quotechar (Csv.lineterminator +++ rest))
                eq_refl Hq (fresh_char q Csv.quotechar Hfresh eq_refl))
      as [Hr1 Hf1].
    simpl in Hf1.
    destruct (resume_raw_quoted_data f p _ _ (Csv.lineterminator +++ rest)
                Hf1 eq_refl) as (p2 & cur2 & Hr2 & Hf2).
    simpl in Hf2.
    destruct (resume_raw_char p2 _
                (Csv.mkparser Csv.QUOTE_IN_QUOTED_FIELD f (Csv.fields q))
                cur2 Csv.quotechar (Csv.lineterminator +++ rest)
                eq_refl Hf2 eq_refl) as [Hr3 Hf3].
    rewrite Hr1, Hr2, Hr3.
    now rewrite (resume_raw_record_end _ _ _ rest Hf3) by auto.
  - destruct (not_quoted f Equoted) as (Hplain & Hdata & _).
    rewrite Hdata in *.
    destruct f as [| c f].
    + destruct Hstart as [Hs | Hne]; [| contradiction].
      destruct Hfresh as [_ Hfld]. cbn [String.append].
      rewrite (resume_raw_record_end _ _ _ rest Hq) by auto.
      now rewrite Hfld.
    + destruct Hplain as [Hc Hplain].
      destruct (needs_quotes_false c Hc) as (Hd & Hqc & Hn).
      destruct (resume_raw_char p q _ cur c
                  (f +++ Csv.lineterminator +++ rest)
                  Hn Hq (fresh_char q c Hfresh Hn)) as [Hr1 Hf1].
      rewrite Hqc, Hd in Hf1.
      destruct (resume_raw_plain f p _ _ (Csv.lineterminator +++ rest) Hf1
                  eq_refl Hplain) as [Hr2 Hf2].
      simpl in Hf2. cbn [String.append]. rewrite Hr1, Hr2.
      now rewrite (resume_raw_record_end _ _ _ rest Hf2) by auto.
Qed.

Lemma resume_raw_cells (cells : list string) :
  cells <> [] ->
  forall (p : Csv.parser) (cur : string) (q : Csv.parser) (rest : string),
    Csv.feed p cur = Some q ->
    fresh q ->
    Csv.state q = Csv.START_FIELD \/
    Text.join (String Csv.delimiter EmptyString) (map Csv.join_append cells)
    <> EmptyString ->
    resume_raw p cur
      (Text.join (String Csv.delimiter EmptyString)
         (map Csv.join_append cells)
       +++ Csv.lineterminator +++ rest)
    = Csv.cons_record (Csv.fields q ++ cells)
        (resume_raw Csv.parse_reset EmptyString rest).
Proof.
  induction cells as [| f cells IH]; [congruence |].
  intros _ p cur q rest Hq Hfresh Hstart.
  destruct cells as [| g cells].
  - apply resume_raw_last_field; assumption.
  - change (Text.join (String Csv.delimiter EmptyString)
              (map Csv.join_append (f :: g :: cells)))
      with (Csv.join_append f +++ String Csv.delimiter EmptyString
            +++ Text.join (String Csv.delimiter EmptyString)
                  (map Csv.join_append (g :: cells))).
    rewrite !append_assoc. cbn [String.append].
    destruct (resume_raw_field f p cur q
                (Text.join (String Csv.delimiter EmptyString)
                   (map Csv.join_append (g :: cells))
                 +++ Csv.lineterminator +++ rest) Hq Hfresh)
      as (p' & cur' & Hr & Hf).
    rewrite Hr.
    rewrite (IH ltac:(discriminate) p' cur' _ rest Hf); cbn [Csv.fields].
    + now rewrite <- app_assoc.
    + split; [now left | reflexivity].
    + now left.
Qed.

Lemma resume_raw_writerow (row : list (option string)) (rest : string) :
  row <> [] ->
  resume_raw Csv.parse_reset EmptyString (Csv.writerow row +++ rest)
  = Csv.cons_record (map Csv.cell row)
      (resume_raw Csv.parse_reset EmptyString rest).
Proof.
  intros Hrow. unfold Csv.writerow.
  rewrite <- (map_map Csv.cell Csv.join_append).
  assert (Hcells : map Csv.cell row <> [])
    by (destruct row; [congruence | discriminate]).
  destruct (Text.is_empty
              (Text.join (String Csv.delimiter EmptyString)
                 (map Csv.join_append (map Csv.cell row)))) eqn:E.
  - apply is_empty_true in E.
    destruct row as [| o [| o' row]]; [congruence | |].
    + simpl in E. apply join_append_empty in E. simpl. rewrite E.
      reflexivity.
    + exfalso. revert E. cbn [map Text.join].
      generalize (Csv.join_append (Csv.cell o)). intros a E.
      now apply append_not_empty in E.
  - apply is_empty_false in E. cbn [andb]. rewrite append_assoc.
    rewrite (resume_raw_cells _ Hcells Csv.parse_reset EmptyString
               Csv.parse_reset rest eq_refl);
      [reflexivity | split; [now right | reflexivity] | now right].
Qed.

(** Read with [newline=''], what the writer writes comes back cell by
    cell, line ends included. *)
Lemma reader_raw_writerows (rows : list (list (option string))) :
  Forall (fun row => row <> []) rows ->
  Csv.reader
    (File.lines false (String.concat EmptyString (map Csv.writerow rows)))
  = Csv.mkrows (map (map Csv.cell) rows) false.
Proof.
  change (Csv.reader (File.lines false ?t))
    with (resume_raw Csv.parse_reset EmptyString t).
  induction 1 as [| row rows Hrow Hrows IH]; [reflexivity |].
  cbn [map]. rewrite concat_cons, (resume_raw_writerow _ _ Hrow), IH.
  reflexivity.
Qed.

Lemma importable_written_row (c : Contact) :
  importable (written_row c) = valid_contact c.
Proof.
  unfold importable, invalid_phone, valid_contact. cbn.
  now rewrite negb_involutive.
Qed.

Lemma filter_importable_written (cs : list Contact) :
  filter importable (map written_row cs)
  = map written_row (filter valid_contact cs).
Proof.
  induction cs as [| c cs IH]; [reflexivity |]. cbn [map filter].
  rewrite importable_written_row, IH. now destruct (valid_contact c).
Qed.

Lemma from_written_rows (cs l : list Contact) :
  Forall2 from_row (map written_row cs) l -> Forall2 imported_back cs l.
Proof.
  revert l. induction cs as [| c cs IH]; intros l H.
  - inversion H. constructor.
  - inversion H as [| row c' rows l' Hrow Hrest]; subst.
    constructor; [| now apply IH].
    destruct Hrow as (H1 & H2 & H3 & H4 & H5). now repeat split.
Qed.


(** An address of two lines comes back with its line break. *)
Example save_then_batch_import_line_break :
  map address
    (contacts
       (fst (exec (batch_import "/app/contacts.csv")
               (PhoneBook_init "/tmp",
                snd (exec save_to_file
                       (mkPhoneBook [two_lines] "/app/contacts.csv",
                        sample_world))))))
  = [address two_lines].
Proof. reflexivity. Qed.

(** ** Sorting what is sorted *)

Section InPlaceFacts.
Context {A : Type} (key : A -> string).

Let le (a b : A) : Prop := String.leb (key a) (key b) = true.

Lemma leb_not_ltb (a b : string) :
  String.leb a b = true -> String.ltb b a = false.
Proof.
  unfold String.leb, String.ltb. rewrite (String.compare_antisym b a).
  destruct (String.compare a b); simpl; congruence.
Qed.

Lemma insert_sorted_end (x : A) (l : list A) :
  Forall (fun y => le y x) l -> insert_sorted key x l = l ++ [x].
Proof.
  induction 1 as [| y l Hy _ IH]; [reflexivity |]. simpl.
  now rewrite (leb_not_ltb _ _ Hy), IH.
Qed.

Lemma StronglySorted_app_head (acc : list A) (x : A) (l : list A) :
  StronglySorted le (acc ++ x :: l) -> Forall (fun y => le y x) acc.
Proof.
  induction acc as [| a acc IH]; intros H; [constructor |].
  inversion H as [| ? ? Hs Hall]; subst. constructor.
  - rewrite Forall_forall in Hall. apply Hall, in_elt.
  - now apply IH.
Qed.

Lemma fold_insert_fixed (l acc : list A) :
  StronglySorted le (acc ++ l) ->
  fold_left (fun acc x => insert_sorted key x acc) l acc = acc ++ l.
Proof.
  revert acc. induction l as [| x l IH]; intros acc H; simpl.
  - now rewrite app_nil_r.
  - rewrite (insert_sorted_end x acc (StronglySorted_app_head acc x l H)).
    rewrite IH; rewrite <- app_assoc; [reflexivity | exact H].
Qed.

Lemma sorted_fixed (l : list A) : StronglySorted le l -> sorted key l = l.
Proof. intros H. now apply (fold_insert_fixed l []). Qed.

Lemma sorted_snoc (l : list A) (x : A) :
  sorted key (l ++ [x]) = insert_sorted key x (sorted key l).
Proof. unfold sorted. now rewrite fold_left_app. Qed.

Lemma insert_sorted_split (x : A) (l : list A) :
  StronglySorted le l ->
  exists before after : list A,
    l = before ++ after /\
    insert_sorted key x l = before ++ x :: after /\
    Forall (fun b => le b x) before /\
    Forall (fun a => String.ltb (key x) (key a) = true) after.
Proof.
  induction 1 as [| y l Hs IH Hall].
  - exists [], []. repeat split; constructor.
  - simpl. destruct (String.ltb (key x) (key y)) eqn:E.
    + exists [], (y :: l). repeat split; [constructor |].
      constructor; [exact E |].
      eapply Forall_impl; [| exact Hall]. intros z Hz.
      now apply (ltb_leb_trans _ (key y)).
    + destruct IH as (before & after & -> & -> & Hb & Ha).
      exists (y :: before), after. repeat split; [| exact Ha].
      constructor; [| exact Hb]. now apply string_not_ltb_leb.
Qed.
End InPlaceFacts.

(** X22.  Into a phone book that is sorted by last name, [add_contact]
    puts a record with a valid phone number in its place and moves no
    other: the list becomes [before ++ contact :: after], where
    [before ++ after] is the list as it was, the last names of [before] are
    not after the new one and those of [after] are after it, case
    ignored. *)
Theorem add_contact_inserts_in_place
  (contact : Contact) (self : PhoneBook) (w : world) :
  StronglySorted last_name_le (contacts self) ->
  validate_phone_number (phone_number contact) = true ->
  exists before after : list Contact,
    contacts self = before ++ after /\
    add_contact contact self w
    = (Return tt, mkPhoneBook (before ++ contact :: after) (filename self),
       w) /\
    Forall (fun b => last_name_le b contact) before /\
    Forall (fun a =>
              String.ltb (Text.lower (last_name contact))
                (Text.lower (last_name a)) = true) after.
Proof.
  intros Hs Hv. rewrite (add_contact_valid _ _ _ Hv).
  rewrite sorted_snoc, (sorted_fixed _ _ Hs).
  destruct (insert_sorted_split (fun c => Text.lower (last_name c)) contact
              (contacts self) Hs) as (before & after & Hl & Hi & Hb & Ha).
  exists before, after. rewrite Hi. now repeat split.
Qed.

Lemma add_contact_inserts_in_place_witness :
  StronglySorted last_name_le (contacts smith_store) /\
  validate_phone_number (phone_number two_lines) = true /\
  exists before after : list Contact,
    contacts smith_store = before ++ after /\
    add_contact two_lines smith_store sample_world
    = (Return tt,
       mkPhoneBook (before ++ two_lines :: after) (filename smith_store),
       sample_world) /\
    Forall (fun b => last_name_le b two_lines) before /\
    Forall (fun a =>
              String.ltb (Text.lower (last_name two_lines))
                (Text.lower (last_name a)) = true) after.
Proof.
  assert (H : StronglySorted last_name_le (contacts smith_store)).
  { repeat constructor. }
  split; [exact H |]. split; [reflexivity |].
  exact (add_contact_inserts_in_place two_lines smith_store sample_world H
           eq_refl).
Defined.

(** X23.  Sorting twice is sorting once: after [sort_contacts], a second
    call with the same key leaves the phone book as the first one made
    it. *)
Theorem sort_contacts_idempotent
  (key : string) (self : PhoneBook) (w : world) :
  exists self' : PhoneBook,
    sort_contacts key self w = (Return tt, self', w) /\
    sort_contacts key self' w = (Return tt, self', w).
Proof.
  rewrite sort_contacts_run. eexists. split; [reflexivity |].
  rewrite sort_contacts_run. cbn [contacts filename].
  destruct (String.eqb key "first_name").
  - now rewrite (sorted_fixed _ _ (sorted_StronglySorted _ _)).
  - destruct (String.eqb key "last_name"); [| reflexivity].
    now rewrite (sorted_fixed _ _ (sorted_StronglySorted _ _)).
Qed.

(** ** What the load prints *)

Lemma load_row_world (row : list string) (u : unit) (self : PhoneBook)
  (w : world) :
  exists (self' : PhoneBook) (w' : world),
    load_row row u self w = (Return tt, self', w') /\
    stdout w'
    = stdout w ++ repeat InvalidPhoneNumberFormat (length (filter refused [row]))
    /\
    ticks w' = 2 * length (filter has_three_fields [row]) + ticks w.
Proof.
  unfold refused, invalid_phone. cbn [filter].
  destruct (has_three_fields row) eqn:Hlong.
  - unfold load_row. unfold has_three_fields in Hlong. rewrite Hlong.
    unfold bind. rewrite Contact_init_run.
    destruct (validate_phone_number (nth 2 row EmptyString)) eqn:Hv.
    + rewrite add_contact_valid by exact Hv. eexists _, _.
      split; [reflexivity |]. cbn. now rewrite app_nil_r.
    + rewrite add_contact_invalid by exact Hv. eexists _, _.
      split; [reflexivity |]. cbn. split; reflexivity.
  - unfold load_row. unfold has_three_fields in Hlong. rewrite Hlong.
    exists self, w. split; [reflexivity |]. cbn. now rewrite app_nil_r.
Qed.

Lemma load_loop_world (rows : list (list string)) :
  forall (self : PhoneBook) (w : world),
  exists (self' : PhoneBook) (w' : world),
    for_fold rows tt load_row self w = (Return tt, self', w') /\
    stdout w'
    = stdout w ++ repeat InvalidPhoneNumberFormat (length (filter refused rows))
    /\
    ticks w' = 2 * length (filter has_three_fields rows) + ticks w.
Proof.
  induction rows as [| row rows IH]; intros self w.
  - exists self, w. cbn. now rewrite app_nil_r.
  - destruct (load_row_world row tt self w) as (self1 & w1 & Hrow & Ho1 & Ht1).
    rewrite (for_fold_cons _ _ _ _ _ _ _ _ _ Hrow).
    destruct (IH self1 w1) as (self' & w' & Hrun & Ho & Ht).
    exists self', w'. split; [exact Hrun |].
    change (row :: rows) with ([row] ++ rows).
    rewrite !filter_app, !length_app, repeat_app, Ho, Ho1, Ht, Ht1.
    split; [now rewrite app_assoc | lia].
Qed.


